(** * @very-coffee/hello: the namespace/level filter in front of pino

    A shallow embedding of [src/index.ts] and the properties of its
    filter-decision engine: the table built from the [DEBUG] variable
    ([parseDebugEnvVar]), the query on it ([isEnabled]), the severity
    threshold handed to pino ([getMinLogLevel]), the placeholder
    substitution ([formatMessage]) and the log functions that
    [helloInnit] puts in the namespace/level matrix.

    Modelling conventions.
    - A JS string is a sequence of code units; the model covers the code
      units below 256, one [ascii] each.
    - A [Set<string>] is the list of its members in insertion order.
    - A plain object used as a dictionary is a [gmap] from its own keys.
      [isEnabled] and [pinoLevelOf] read the own keys only; [member],
      [isEnabledOrThrow], [pinoLevelRead] and [logFnOrThrow] read
      through the prototype chain, where a name such as "constructor" or
      "toString" finds a member of [Object.prototype]. The two readings
      agree ([isEnabledOrThrow_returns], [pinoLevelRead_severity],
      [logFnOrThrow_returns]) unless such a name is looked up and is no
      own key.
    - An assignment to the key "__proto__" replaces the prototype of the
      object and adds no key; the statements about the keys of a built
      object are made for declarations without that name.
    - Reading a member of [undefined] raises a [TypeError]; functions
      that can reach such a read return a [Result]. *)

From Stdlib Require Import Ascii String ZArith.
From stdpp Require Import base option list gmap strings fin_maps.

Local Open Scope string_scope.

(** ** Results of code that can throw *)

Inductive Result (A : Type) : Type :=
| Ok (a : A)
| TypeError.
Arguments Ok {A} a.
Arguments TypeError {A}.

#[global] Instance Result_ret : MRet Result := fun A a => Ok a.

#[global] Instance Result_bind : MBind Result := fun A B k r =>
  match r with
  | Ok a => k a
  | TypeError => TypeError
  end.

(** [xs.forEach(f)] for a callback that updates the captured state [st];
    an exception leaves the loop. *)
Fixpoint forEach {A S : Type} (f : A → S → Result S) (xs : list A) (st : S)
  : Result S :=
  match xs with
  | [] => Ok st
  | x :: rest => st' ← f x st ; forEach f rest st'
  end.

(** ** The string primitives the parser uses *)

Module Str.

(** [!s]: the empty string is the only falsy string. *)
Definition falsy (s : string) : bool :=
  match s with
  | EmptyString => true
  | String _ _ => false
  end.

Definition truthy (s : string) : bool := negb (falsy s).

(** [s.split(sep)] for a one-character separator: every occurrence
    cuts, and the empty string gives one empty piece. *)
Fixpoint split (sep : ascii) (s : string) : list string :=
  match s with
  | EmptyString => [EmptyString]
  | String c rest =>
      if Ascii.eqb c sep then EmptyString :: split sep rest
      else match split sep rest with
           | [] => [String c EmptyString]
           | piece :: pieces => String c piece :: pieces
           end
  end.

(** White space of [String.prototype.trim] among the code units below
    256: TAB, LF, VT, FF, CR, SP and NBSP. *)
Definition isWhiteSpace (c : ascii) : bool :=
  let n := nat_of_ascii c in
  ((9 <=? n)%nat && (n <=? 13)%nat) || (n =? 32)%nat || (n =? 160)%nat.

Fixpoint trimStart (s : string) : string :=
  match s with
  | EmptyString => EmptyString
  | String c rest => if isWhiteSpace c then trimStart rest else s
  end.

Fixpoint trimEnd (s : string) : string :=
  match s with
  | EmptyString => EmptyString
  | String c rest =>
      let rest' := trimEnd rest in
      if isWhiteSpace c && falsy rest' then EmptyString else String c rest'
  end.

Definition trim (s : string) : string := trimEnd (trimStart s).

(** [s.startsWith(c)] for a one-character prefix. *)
Definition startsWith (c : ascii) (s : string) : bool :=
  match s with
  | EmptyString => false
  | String d _ => Ascii.eqb d c
  end.

(** [s.substring(1)] *)
Definition substring1 (s : string) : string :=
  match s with
  | EmptyString => EmptyString
  | String _ rest => rest
  end.

(** [xs.includes(x)] on an array of strings. *)
Definition includes (xs : list string) (x : string) : bool :=
  bool_decide (x ∈ xs).

End Str.

(** ** [Set<string | "*">] *)

Module JsSet.

Definition has (s : list string) (x : string) : bool := bool_decide (x ∈ s).

Definition add (s : list string) (x : string) : list string :=
  if has s x then s else (s ++ [x])%list.

Definition size (s : list string) : nat := length s.

End JsSet.

(** ** The environment read at construction *)

Record ProcessEnv : Type := mkEnv {
  DEBUG : option string;
  LOG_LEVEL : option string
}.

(** [process.env.DEBUG || ""] *)
Definition debugOf (env : ProcessEnv) : string :=
  match DEBUG env with
  | Some s => if Str.falsy s then "" else s
  | None => ""
  end.

(** ** [parseDebugEnvVar] *)

Abbreviation Table := (gmap string (list string)).

(** [result[ns].add(level)]: a [TypeError] when [result[ns]] is
    [undefined]. *)
Definition addLevel (ns level : string) (result : Table) : Result Table :=
  match result !! ns with
  | Some s => Ok (<[ns := JsSet.add s level]> result)
  | None => TypeError
  end.

(** The body shared by the two branches of the inclusion callback
    (lines 110-116 and 122-128), for the namespace [namespace]. *)
Definition enable (levels : list string) (level : option string)
    (namespace : string) (result : Table) : Result Table :=
  match level with
  | Some lv =>
      if Str.truthy lv then
        if bool_decide (lv = "*") || Str.includes levels lv
        then addLevel namespace lv result
        else Ok result
      else Ok (<[namespace := ["*"]]> result)
  | None => Ok (<[namespace := ["*"]]> result)
  end.

(** [const [ns, level] = pattern.split(":")]: the first two pieces of the
    split; [ns] is [undefined] for no piece, [level] for fewer than two. *)
Definition nsAndLevel (pattern : string) : option string * option string :=
  let pieces := Str.split ":" pattern in
  (pieces !! 0%nat, pieces !! 1%nat).

(** The callback of [inclusions.forEach] (lines 101-130). *)
Definition inclusion (namespaces levels : list string) (pattern : string)
    (result : Table) : Result Table :=
  match nsAndLevel pattern with
  | (Some ns, level) =>
      if Str.falsy ns then Ok result
      else if bool_decide (ns = "*") then
        forEach (enable levels level) namespaces result
      else if Str.includes namespaces ns then enable levels level ns result
      else Ok result
  | (None, _) => Ok result
  end.

(** [pattern.substring(1).split(":")[0]] *)
Definition excludedNs (pattern : string) : option string :=
  Str.split ":" (Str.substring1 pattern) !! 0%nat.

(** The callback of [exclusions.forEach] (lines 134-144). *)
Definition exclusion (namespaces : list string) (pattern : string)
    (result : Table) : Result Table :=
  match excludedNs pattern with
  | Some ns =>
      if Str.falsy ns then Ok result
      else if Str.includes namespaces ns then Ok (<[ns := []]> result)
      else Ok result
  | None => Ok result
  end.

(** [debug.split(",").map((p) => p.trim()).filter(Boolean)] *)
Definition patternsOf (debug : string) : list string :=
  List.filter Str.truthy (List.map Str.trim (Str.split "," debug)).

Definition inclusionsOf (patterns : list string) : list string :=
  List.filter (fun p => negb (Str.startsWith "-" p)) patterns.

Definition exclusionsOf (patterns : list string) : list string :=
  List.filter (fun p => Str.startsWith "-" p) patterns.

Definition parseDebugEnvVar (env : ProcessEnv) (namespaces levels : list string)
  : Result Table :=
  let debug := debugOf env in
  result ← forEach (fun ns r => Ok (<[ns := []]> r)) namespaces ∅ ;
  if bool_decide (debug = "*") then
    forEach (fun ns r => Ok (<[ns := ["*"]]> r)) namespaces result
  else
    let patterns := patternsOf debug in
    result ← forEach (inclusion namespaces levels) (inclusionsOf patterns) result ;
    forEach (exclusion namespaces) (exclusionsOf patterns) result.

(** ** [isEnabled] *)

(** Lines 150-166, the own keys of the table read (see
    [isEnabledOrThrow] for the names inherited from
    [Object.prototype]). *)
Definition isEnabled (enabledMap : Table) (namespace level : string) : bool :=
  match enabledMap !! namespace with
  | None => false
  | Some enabledLevels =>
      if JsSet.has enabledLevels "*" then true
      else if (JsSet.size enabledLevels =? 0)%nat then false
      else JsSet.has enabledLevels level
  end.

(** The environment in which [DEBUG] is [s] and [LOG_LEVEL] is unset. *)
Definition envDebug (s : string) : ProcessEnv := mkEnv (Some s) None.

(** ** Severities of the engine and [getMinLogLevel] *)

Inductive Severity : Type := fatal | error | warn | info | debug | trace.

#[global] Instance Severity_eq_dec : EqDecision Severity.
Proof. solve_decision. Defined.

(** The table [levelToPinoLevel] (lines 169-176). *)
Definition levelToPinoLevel (level : string) : option Severity :=
  if bool_decide (level = "fatal") then Some fatal
  else if bool_decide (level = "error") then Some error
  else if bool_decide (level = "warn") then Some warn
  else if bool_decide (level = "info") then Some info
  else if bool_decide (level = "debug") then Some debug
  else if bool_decide (level = "trace") then Some trace
  else None.

(** [xs.indexOf(x)]: the first position of [x], or -1. *)
Fixpoint indexOf {A : Type} `{EqDecision A} (xs : list A) (x : A) : Z :=
  match xs with
  | [] => -1
  | y :: rest =>
      if bool_decide (y = x) then 0
      else let i := indexOf rest x in if (i <? 0)%Z then -1 else (i + 1)%Z
  end.

Definition validLevels : list Severity := [fatal; error; warn; info; debug; trace].

(** The body of [for (const level of enabledLevels)] (lines 228-236) on
    the loop state [(minLevel, found)]. A [level] that is no key of
    [levelToPinoLevel] is skipped (a name inherited from
    [Object.prototype] passes the [in] test, but its value is not in
    [validLevels], its index is -1 and the state stays). *)
Definition checkLevel (st : Severity * bool) (level : string) : Severity * bool :=
  let '(minLevel, found) := st in
  if negb (bool_decide (level = "*")) then
    match levelToPinoLevel level with
    | Some sev =>
        let levelIdx := indexOf validLevels sev in
        let minLevelIdx := indexOf validLevels minLevel in
        if (levelIdx >? minLevelIdx)%Z then (sev, true) else (minLevel, found)
    | None => (minLevel, found)
    end
  else (minLevel, found).

(** [for (const namespace of namespaces)] (lines 218-238) with its early
    [return "trace"], followed by [return found ? minLevel : "info"]. *)
Fixpoint scanNamespaces (enabledNamespacesMap : Table) (namespaces : list string)
    (st : Severity * bool) : Result Severity :=
  match namespaces with
  | [] => let '(minLevel, found) := st in Ok (if found then minLevel else info)
  | namespace :: rest =>
      match enabledNamespacesMap !! namespace with
      | None => TypeError
      | Some enabledLevels =>
          if JsSet.has enabledLevels "*" then Ok trace
          else scanNamespaces enabledNamespacesMap rest
                 (foldl checkLevel st enabledLevels)
      end
  end.

Definition getMinLogLevel (env : ProcessEnv) (namespaces : list string)
    (enabledNamespacesMap : Table) : Result Severity :=
  match LOG_LEVEL env with
  | Some configuredLevel =>
      match levelToPinoLevel configuredLevel with
      | Some sev => Ok sev
      | None => scanNamespaces enabledNamespacesMap namespaces (info, false)
      end
  | None => scanNamespaces enabledNamespacesMap namespaces (info, false)
  end.

(** ** [formatMessage] *)

(** [s.replace(/%[sdifjoO]/g, callback)] where the callback reads and
    updates a counter: the matches are found left to right in [s], the
    text a callback returns is not scanned again. *)
Definition isPlaceholderLetter (c : ascii) : bool :=
  bool_decide (c ∈ ["s"; "d"; "i"; "f"; "j"; "o"; "O"]%char).

Fixpoint replacePlaceholders (callback : string → nat → string * nat)
    (s : string) (argIndex : nat) : string * nat :=
  match s with
  | EmptyString => (EmptyString, argIndex)
  | String c s' =>
      match s' with
      | String d rest =>
          if Ascii.eqb c "%" && isPlaceholderLetter d then
            let '(out, argIndex') := callback (String c (String d EmptyString)) argIndex in
            let '(tail, argIndex'') := replacePlaceholders callback rest argIndex' in
            (out ++ tail, argIndex'')
          else
            let '(tail, argIndex') := replacePlaceholders callback s' argIndex in
            (String c tail, argIndex')
      | EmptyString => (String c EmptyString, argIndex)
      end
  end.

Section Values.

(** The values of type [any] and the conversions of the runtime:
    [String(v)], [parseInt(v, 10).toString()],
    [parseFloat(v).toString()], [typeof v === "object"] and
    [typeof v === "string"] (with the string). *)
Context {any : Type}.
Variable toStr : any → string.
Variable parseIntStr : any → string.
Variable parseFloatStr : any → string.
Variable isObject : any → bool.
Variable asString : any → option string.

(** The [switch (match)] of the callback (lines 46-61). *)
Definition render (placeholder : string) (arg : any) : string :=
  if bool_decide (placeholder = "%s") then toStr arg
  else if bool_decide (placeholder = "%d") || bool_decide (placeholder = "%i")
  then parseIntStr arg
  else if bool_decide (placeholder = "%f") then parseFloatStr arg
  else if bool_decide (placeholder = "%j") || bool_decide (placeholder = "%o")
          || bool_decide (placeholder = "%O")
  then (if isObject arg then "[Object]" else toStr arg)
  else placeholder.

(** The callback (lines 39-62); [argIndex >= args.length] is
    [args !! argIndex = None]. *)
Definition substitute (args : list any) (placeholder : string) (argIndex : nat)
  : string * nat :=
  match args !! argIndex with
  | None => (placeholder, argIndex)
  | Some arg => (render placeholder arg, S argIndex)
  end.

Record FormattedResult : Type := mkFormatted {
  message : string;
  unusedArgs : list any
}.

Definition formatMessage (msg : string) (args : list any) : FormattedResult :=
  let '(formattedMessage, argIndex) :=
    replacePlaceholders (substitute args) msg 0 in
  mkFormatted formattedMessage (drop argIndex args).

End Values.

(** ** The log functions of [helloInnit] *)

(** The first argument of a log function: [string | object]. *)
Inductive MessageOrObj (any : Type) : Type :=
| Message (s : string)
| Obj (o : any).
Arguments Message {any} s.
Arguments Obj {any} o.

(** The object handed to the engine: [{ args }], [{ ...obj, args }] or
    [obj] itself. *)
Inductive Payload (any : Type) : Type :=
| ArgsOnly (args : list any)
| Spread (o : any) (args : list any)
| Same (o : any).
Arguments ArgsOnly {any} args.
Arguments Spread {any} o args.
Arguments Same {any} o.

(** One call [logger[severity](obj?, msg?)] of the engine. *)
Record EmitCall (any Handle : Type) : Type := mkCall {
  target : Handle;
  severity : Severity;
  payload : option (Payload any);
  text : option string
}.
Arguments mkCall {any Handle} target severity payload text.
Arguments target {any Handle} e.
Arguments severity {any Handle} e.
Arguments payload {any Handle} e.
Arguments text {any Handle} e.

(** The engine's state together with the calls made on it so far. *)
Record World (any Handle Pino : Type) : Type := mkWorld {
  engine : Pino;
  emitted : list (EmitCall any Handle)
}.
Arguments mkWorld {any Handle Pino} engine emitted.
Arguments engine {any Handle Pino} w.
Arguments emitted {any Handle Pino} w.

(** A log function: the call, and the accessor pair behind [enabled]. *)
Record LogFunction (any Handle Pino : Type) : Type := mkLogFunction {
  invoke : MessageOrObj any → list any →
           World any Handle Pino → World any Handle Pino;
  getEnabled : World any Handle Pino → bool;
  setEnabled : any → World any Handle Pino → World any Handle Pino
}.
Arguments mkLogFunction {any Handle Pino} invoke getEnabled setEnabled.
Arguments invoke {any Handle Pino} l.
Arguments getEnabled {any Handle Pino} l.
Arguments setEnabled {any Handle Pino} l.

(** The options of [helloInnit] that the factory reads itself. *)
Record Options (Handle : Type) : Type := mkOptions {
  logger : option Handle;
  level : option string
}.
Arguments mkOptions {Handle} logger level.
Arguments logger {Handle} o.
Arguments level {Handle} o.

Definition severityName (s : Severity) : string :=
  match s with
  | fatal => "fatal" | error => "error" | warn => "warn"
  | info => "info" | debug => "debug" | trace => "trace"
  end.

(** [levelToPinoLevel[level] || "info"], the own keys of the map read
    (see [pinoLevelRead] for the names inherited from
    [Object.prototype]). *)
Definition pinoLevelOf (level : string) : Severity :=
  default info (levelToPinoLevel level).

Section Factory.

Context {any Handle Pino : Type}.
Variable toStr : any → string.
Variable parseIntStr : any → string.
Variable parseFloatStr : any → string.
Variable isObject : any → bool.
Variable asString : any → option string.

(** The engine: [pino({ level })], [logger.child({ key: value })],
    [logger.isLevelEnabled(severity)] and [logger[severity](...)]. *)
Variable pino : string → Handle.
Variable child : Handle → string → string → Handle.
Variable isLevelEnabled : Pino → Handle → Severity → bool.
Variable emit : Handle → Severity → option (Payload any) → option string →
                Pino → Pino.

Abbreviation world := (World any Handle Pino).

(** [envLogger[pinoLevel](obj?, msg?)] *)
Definition callEngine (envLogger : Handle) (pinoLevel : Severity)
    (obj : option (Payload any)) (msg : option string) (w : world) : world :=
  mkWorld (emit envLogger pinoLevel obj msg (engine w))
          ((emitted w ++ [mkCall envLogger pinoLevel obj msg])%list).

(** [logFn] (lines 297-341). *)
Definition logFn (enabledNamespacesMap : Table) (namespace level : string)
    (envLogger : Handle) (pinoLevel : Severity)
    (messageOrObj : MessageOrObj any) (args : list any) (w : world) : world :=
  if negb (isEnabled enabledNamespacesMap namespace level)
     && negb (isLevelEnabled (engine w) envLogger pinoLevel)
  then w
  else
    match messageOrObj with
    | Message m =>
        let result := formatMessage toStr parseIntStr parseFloatStr isObject m args in
        if (0 <? length (unusedArgs result))%nat
        then callEngine envLogger pinoLevel
               (Some (ArgsOnly (unusedArgs result))) (Some (message result)) w
        else callEngine envLogger pinoLevel None (Some (message result)) w
    | Obj o =>
        let msg := match args with
                   | a :: _ => asString a
                   | [] => None
                   end in
        match msg with
        | Some m =>
            if Str.truthy m then
              let restArgs := drop 1 args in
              let result :=
                formatMessage toStr parseIntStr parseFloatStr isObject m restArgs in
              if (0 <? length (unusedArgs result))%nat
              then callEngine envLogger pinoLevel
                     (Some (Spread o (unusedArgs result))) (Some (message result)) w
              else callEngine envLogger pinoLevel
                     (Some (Same o)) (Some (message result)) w
            else callEngine envLogger pinoLevel (Some (Same o)) None w
        | None => callEngine envLogger pinoLevel (Some (Same o)) None w
        end
    end.

(** The accessors given to [Object.defineProperty(logFn, "enabled", ...)]
    (lines 344-357). *)
Definition enabledGet (enabledNamespacesMap : Table) (namespace level : string)
    (envLogger : Handle) (pinoLevel : Severity) (w : world) : bool :=
  isEnabled enabledNamespacesMap namespace level
  || isLevelEnabled (engine w) envLogger pinoLevel.

Definition enabledSet (value : any) (w : world) : world := w.

(** The body of [for (const level of levels)] (lines 291-360). *)
Definition makeLogFunction (enabledNamespacesMap : Table) (nsLogger : Handle)
    (namespace level : string) : LogFunction any Handle Pino :=
  let pinoLevel := pinoLevelOf level in
  let envLogger := child nsLogger "environment" level in
  mkLogFunction
    (logFn enabledNamespacesMap namespace level envLogger pinoLevel)
    (enabledGet enabledNamespacesMap namespace level envLogger pinoLevel)
    enabledSet.

Abbreviation Hello := (gmap string (gmap string (LogFunction any Handle Pino))).

(** [helloInnit] (lines 179-366): the table, the base logger and the
    two nested loops that fill [hello[namespace][level]]. *)
Definition helloInnit (env : ProcessEnv) (namespaces levels : list string)
    (options : Options Handle) : Result Hello :=
  enabledNamespacesMap ← parseDebugEnvVar env namespaces levels ;
  minLevel ← getMinLogLevel env namespaces enabledNamespacesMap ;
  let finalLevel := default (severityName minLevel) (level options) in
  let baseLogger := default (pino finalLevel) (logger options) in
  Ok (foldl
        (fun hello namespace =>
           let nsLogger := child baseLogger "namespace" namespace in
           let envMap :=
             foldl (fun envMap level =>
                      <[level := makeLogFunction enabledNamespacesMap nsLogger
                                   namespace level]> envMap)
                   ∅ levels in
           <[namespace := envMap]> hello)
        ∅ namespaces).

(** What a caller can do with a matrix: call a log function, read its
    [enabled] property, assign to it. *)
Inductive Action : Type :=
| ACall (namespace level : string) (messageOrObj : MessageOrObj any) (args : list any)
| ARead (namespace level : string)
| AWrite (namespace level : string) (value : any).

Definition lookupFn (hello : Hello) (namespace level : string)
  : Result (LogFunction any Handle Pino) :=
  match hello !! namespace with
  | Some envMap =>
      match envMap !! level with
      | Some f => Ok f
      | None => TypeError
      end
  | None => TypeError
  end.

(** One action: the new world and the values read; an action on a log
    function that is not in the matrix throws. *)
Definition act (hello : Hello) (a : Action) (st : world * list bool)
  : Result (world * list bool) :=
  let '(w, reads) := st in
  match a with
  | ACall namespace level messageOrObj args =>
      f ← lookupFn hello namespace level ;
      Ok (invoke f messageOrObj args w, reads)
  | ARead namespace level =>
      f ← lookupFn hello namespace level ;
      Ok (w, (reads ++ [getEnabled f w])%list)
  | AWrite namespace level value =>
      f ← lookupFn hello namespace level ;
      Ok (setEnabled f value w, reads)
  end.

Definition run (hello : Hello) (actions : list Action) (w : world)
  : Result (world * list bool) :=
  forEach (act hello) actions (w, []).

End Factory.

(** ** Vocabulary of the statements *)

(** The text of [s] before its first [sep] (all of [s] when there is
    none), and the text after it. *)
Fixpoint beforeFirst (sep : ascii) (s : string) : string :=
  match s with
  | EmptyString => EmptyString
  | String c rest =>
      if Ascii.eqb c sep then EmptyString else String c (beforeFirst sep rest)
  end.

Fixpoint afterFirst (sep : ascii) (s : string) : option string :=
  match s with
  | EmptyString => None
  | String c rest => if Ascii.eqb c sep then Some rest else afterFirst sep rest
  end.

(** The table after lines 82-84: every declared namespace disabled. *)
Definition initialTable (namespaces : list string) : Table :=
  foldl (fun r ns => <[ns := []]> r) ∅ namespaces.

(** The table written by the fast path (lines 88-90). *)
Definition wildcardTable (namespaces : list string) : Table :=
  foldl (fun r ns => <[ns := ["*"]]> r) (initialTable namespaces) namespaces.

(** The two passes of the general path, from the initial table. *)
Definition passes (namespaces levels : list string) (debug : string)
  : Result Table :=
  result ← forEach (inclusion namespaces levels)
             (inclusionsOf (patternsOf debug)) (initialTable namespaces) ;
  forEach (exclusion namespaces) (exclusionsOf (patternsOf debug)) result.

(** A table has an entry for exactly the declared namespaces. *)
Definition declaredIn (namespaces : list string) (r : Table) : Prop :=
  ∀ ns, is_Some (r !! ns) ↔ ns ∈ namespaces.

(** ... and every enabled-set of the table satisfies [Q]. *)
Definition wellFormed (namespaces : list string) (Q : list string → Prop)
    (r : Table) : Prop :=
  declaredIn namespaces r ∧ ∀ ns s, r !! ns = Some s → Q s.

(** The enabled-sets of the declared namespaces, one after the other,
    and whether one of them holds the wildcard marker. *)
Definition enabledLevelsOf (namespaces : list string) (t : Table) : list string :=
  concat (List.map (fun ns => default [] (t !! ns)) namespaces).

Definition anyWildcard (namespaces : list string) (t : Table) : bool :=
  existsb (fun ns => JsSet.has (default [] (t !! ns)) "*") namespaces.

(** The severity scale, from least to most verbose. *)
Definition verbosity (s : Severity) : nat :=
  match s with
  | fatal => 0 | error => 1 | warn => 2 | info => 3 | debug => 4 | trace => 5
  end.

Definition moreVerbose (a b : Severity) : Severity :=
  if (verbosity a <? verbosity b)%nat then b else a.




(** The loop state of [getMinLogLevel]: [minLevel] is "info" until
    [found] is set, and never less verbose than "info". *)
Definition scanning (st : Severity * bool) : Prop :=
  (3 ≤ verbosity (fst st))%nat ∧ (snd st = false → fst st = info).

(** A message cut at the occurrences of [%s %d %i %f %j %o %O], read
    left to right: plain code units and placeholders. *)
Inductive Piece : Type :=
| Plain (c : ascii)
| Hole (letter : ascii).

Fixpoint piecesOf (s : string) : list Piece :=
  match s with
  | EmptyString => []
  | String c s' =>
      match s' with
      | String d rest =>
          if Ascii.eqb c "%" && isPlaceholderLetter d
          then Hole d :: piecesOf rest
          else Plain c :: piecesOf s'
      | EmptyString => [Plain c]
      end
  end.

Definition holeText (letter : ascii) : string :=
  String "%" (String letter EmptyString).

Fixpoint textOf (ps : list Piece) : string :=
  match ps with
  | [] => EmptyString
  | Plain c :: rest => String c (textOf rest)
  | Hole d :: rest => holeText d ++ textOf rest
  end.

Definition isHole (p : Piece) : bool :=
  match p with
  | Hole _ => true
  | Plain _ => false
  end.

Definition holes (ps : list Piece) : nat := length (List.filter isHole ps).

(** No occurrence of a placeholder is left among the plain code units. *)
Fixpoint noPlainPlaceholder (ps : list Piece) : bool :=
  match ps with
  | Plain c :: rest =>
      match rest with
      | Plain d :: _ =>
          negb (Ascii.eqb c "%" && isPlaceholderLetter d) && noPlainPlaceholder rest
      | _ => noPlainPlaceholder rest
      end
  | Hole d :: rest => isPlaceholderLetter d && noPlainPlaceholder rest
  | [] => true
  end.

(** Each placeholder takes the next argument; a placeholder met after
    the arguments have run out stays as it is. *)
Fixpoint fill {any : Type} (draw : string → any → string) (ps : list Piece)
    (args : list any) : string :=
  match ps with
  | [] => EmptyString
  | Plain c :: rest => String c (fill draw rest args)
  | Hole d :: rest =>
      match args with
      | arg :: args' => draw (holeText d) arg ++ fill draw rest args'
      | [] => holeText d ++ fill draw rest []
      end
  end.

(** An engine for examples, after the mock of the test suite for
    [LOG_LEVEL=error]: values are strings, a scoped logger is the path of
    its bindings, the gate lets "error" and "fatal" through, and the
    state counts the calls. *)
Module Demo.

Definition pino (level : string) : string := "pino:" ++ level.

Definition child (parent key value : string) : string :=
  parent ++ "/" ++ key ++ "=" ++ value.

Definition isLevelEnabled (state : nat) (logger : string) (sev : Severity) : bool :=
  bool_decide (sev = error) || bool_decide (sev = fatal).

Definition emit (logger : string) (sev : Severity)
    (obj : option (Payload string)) (txt : option string) (state : nat) : nat :=
  S state.

Definition helloInnit (env : ProcessEnv) (namespaces levels : list string)
  : Result (gmap string (gmap string (LogFunction string string nat))) :=
  helloInnit (fun s => s) (fun s => s) (fun s => s) (fun _ => false) Some
    pino child isLevelEnabled emit env namespaces levels (mkOptions None None).

Definition start : World string string nat := mkWorld 0 [].

End Demo.

(** ** [createDebugPatterns] *)

Module Arr.

(** [xs.join(sep)]: the elements with [sep] between them, the empty
    string for no element. *)
Fixpoint join (sep : string) (xs : list string) : string :=
  match xs with
  | [] => EmptyString
  | x :: rest =>
      match rest with
      | [] => x
      | _ :: _ => x ++ sep ++ join sep rest
      end
  end.

End Arr.

(** [environments.flatMap((env) => namespaces.map((namespace) =>
    `${namespace}:${env}`)).join(",")] (lines 18-25). *)
Definition createDebugPatterns (namespaces environments : list string) : string :=
  Arr.join ","
    (flat_map (fun env => List.map (fun namespace => namespace ++ ":" ++ env)
                            namespaces)
       environments).

(** ** Vocabulary of the further statements *)

Definition hasChar (c : ascii) (s : string) : bool :=
  match afterFirst c s with
  | Some _ => true
  | None => false
  end.

(** A namespace that a pattern can name: not empty, free of ',' and ':',
    starting neither with white space nor with '-'. *)
Definition patternSafeNamespace (ns : string) : bool :=
  match ns with
  | EmptyString => false
  | String c _ =>
      negb (Str.isWhiteSpace c) && negb (Ascii.eqb c "-")
      && negb (hasChar "," ns) && negb (hasChar ":" ns)
  end.

(** A level that a pattern can name: not empty, free of ',' and ':', not
    ending with white space. *)
Definition patternSafeLevel (lvl : string) : bool :=
  Str.truthy lvl && negb (hasChar "," lvl) && negb (hasChar ":" lvl)
  && bool_decide (Str.trimEnd lvl = lvl).







(** The names that every plain object inherits from [Object.prototype];
    the [in] operator answers true for them on any table. *)
Definition inheritedName (name : string) : bool :=
  Str.includes
    ["constructor"; "hasOwnProperty"; "isPrototypeOf"; "propertyIsEnumerable";
     "toLocaleString"; "toString"; "valueOf"; "__proto__"; "__defineGetter__";
     "__defineSetter__"; "__lookupGetter__"; "__lookupSetter__"]
    name.


(** The message that follows an object argument (lines 318-323): the
    first of the further arguments when it is a non-empty string. *)
Definition leadingText {any : Type} (asString : any → option string)
    (args : list any) : option string :=
  match args with
  | a :: _ =>
      match asString a with
      | Some m => if Str.truthy m then Some m else None
      | None => None
      end
  | [] => None
  end.




(** ** Reads through the prototype chain *)

(** What [obj[key]] gives on a plain object whose prototype is
    [Object.prototype] and whose own keys are those of the map: the own
    value; for a key that is no own key but names a member of
    [Object.prototype], that member (a function, or the prototype itself
    for "__proto__"), which is truthy and has none of the members of a
    set, a severity or a logger; [undefined] otherwise. *)
Inductive Member (V : Type) : Type :=
| Own (v : V)
| Inherited
| Undefined.
Arguments Own {V} v.
Arguments Inherited {V}.
Arguments Undefined {V}.

Definition member {V : Type} (obj : gmap string V) (key : string) : Member V :=
  match obj !! key with
  | Some v => Own v
  | None => if inheritedName key then Inherited else Undefined
  end.

(** [isEnabled] (lines 150-166) with [enabledMap[namespace]] read
    through the prototype chain: an inherited member passes the test of
    line 156 and has no [has], so line 159 throws a [TypeError]. *)
Definition isEnabledOrThrow (enabledMap : Table) (namespace level : string)
  : Result bool :=
  match member enabledMap namespace with
  | Undefined => Ok false
  | Inherited => TypeError
  | Own enabledLevels =>
      if JsSet.has enabledLevels "*" then Ok true
      else if (JsSet.size enabledLevels =? 0)%nat then Ok false
      else Ok (JsSet.has enabledLevels level)
  end.

(** The value of [levelToPinoLevel[level] || "info"] (line 293): a
    severity, or the member of [Object.prototype] that a level named
    after it reads, which is truthy and no severity. *)
Inductive PinoLevel : Type :=
| Level (sev : Severity)
| NotALevel.

Definition pinoLevelRead (level : string) : PinoLevel :=
  match levelToPinoLevel level with
  | Some sev => Level sev
  | None => if inheritedName level then NotALevel else Level info
  end.

Section Throwing.

Context {any Handle Pino : Type}.
Variable toStr : any → string.
Variable parseIntStr : any → string.
Variable parseFloatStr : any → string.
Variable isObject : any → bool.
Variable asString : any → option string.
Variable isLevelEnabled : Pino → Handle → Severity → bool.
Variable emit : Handle → Severity → option (Payload any) → option string →
                Pino → Pino.

(** The answer of [logger.isLevelEnabled(x)] for an argument [x] that is
    no severity. *)
Variable isLevelEnabledOther : Pino → Handle → bool.

(** [logFn] (lines 297-341) for the level [level], with the reads of
    [enabledNamespacesMap] and [levelToPinoLevel] through the prototype
    chain. For a severity it is [logFn]. When [pinoLevel] is no
    severity, [envLogger[pinoLevel]] is [undefined]: a call that the
    guard lets through throws a [TypeError] at whichever of lines 312,
    314, 330, 335 or 338 it reaches. *)
Definition logFnOrThrow (enabledNamespacesMap : Table) (namespace level : string)
    (envLogger : Handle) (messageOrObj : MessageOrObj any) (args : list any)
    (w : World any Handle Pino) : Result (World any Handle Pino) :=
  enabled ← isEnabledOrThrow enabledNamespacesMap namespace level ;
  match pinoLevelRead level with
  | Level pinoLevel =>
      Ok (logFn toStr parseIntStr parseFloatStr isObject asString isLevelEnabled
            emit enabledNamespacesMap namespace level envLogger pinoLevel
            messageOrObj args w)
  | NotALevel =>
      if negb enabled && negb (isLevelEnabledOther (engine w) envLogger)
      then Ok w
      else TypeError
  end.

(** The object and the text that a call hands to the engine: for a
    string message, the leftover arguments under [args] (no object when
    none is left) and the formatted message; for an object, the object
    alone, or with a message the object (a copy with the leftover
    arguments under [args] when some are left) and the formatted
    message. *)
Definition forwarded (messageOrObj : MessageOrObj any) (args : list any)
  : option (Payload any) * option string :=
  let draw := render toStr parseIntStr parseFloatStr isObject in
  match messageOrObj with
  | Message msg =>
      let taken := holes (piecesOf msg) in
      (if (taken <? length args)%nat then Some (ArgsOnly (drop taken args)) else None,
       Some (fill draw (piecesOf msg) args))
  | Obj o =>
      match leadingText asString args with
      | None => (Some (Same o), None)
      | Some m =>
          let rest := drop 1 args in
          let taken := holes (piecesOf m) in
          (Some (if (taken <? length rest)%nat
                 then Spread o (drop taken rest) else Same o),
           Some (fill draw (piecesOf m) rest))
      end
  end.

End Throwing.

(** ** Basic facts *)

Lemma forEach_pure {A S : Type} (g : S → A → S) (xs : list A) (st : S) :
  forEach (fun x s => Ok (g s x)) xs st = Ok (foldl g st xs).
Proof.
  revert st. induction xs as [|x xs IH]; intros st; simpl; [done|].
  apply IH.
Qed.


(** A loop whose body keeps an invariant and never throws. *)
Lemma forEach_invariant {A S : Type} (P : S → Prop) (f : A → S → Result S)
    (xs : list A) (st : S) :
  P st →
  (∀ x s, x ∈ xs → P s → ∃ s', f x s = Ok s' ∧ P s') →
  ∃ st', forEach f xs st = Ok st' ∧ P st'.
Proof.
  revert st. induction xs as [|x xs IH]; intros st HP Hf; simpl.
  - by exists st.
  - destruct (Hf x st) as (s' & -> & HP'); [by left | done |]. simpl.
    apply IH; [done|]. intros y s Hy. apply Hf. by right.
Qed.

(** The object after [keys.forEach((k) => { m[k] = g(k) })]. *)
Lemma foldl_insert_fn_lookup {V : Type} (g : string → V) (keys : list string)
    (m : gmap string V) (k : string) :
  foldl (fun m k => <[k := g k]> m) m keys !! k
  = if bool_decide (k ∈ keys) then Some (g k) else m !! k.
Proof.
  revert m. induction keys as [|x rest IH]; intros m; cbn [foldl].
  - by rewrite bool_decide_eq_false_2 by apply not_elem_of_nil.
  - rewrite IH. destruct (decide (k ∈ rest)) as [Hin|Hnin].
    + rewrite (bool_decide_eq_true_2 _ Hin).
      rewrite bool_decide_eq_true_2; [done | by right].
    + rewrite (bool_decide_eq_false_2 _ Hnin).
      destruct (decide (x = k)) as [->|Hne].
      * rewrite lookup_insert_eq. by rewrite bool_decide_eq_true_2 by left.
      * rewrite lookup_insert_ne by done.
        rewrite bool_decide_eq_false_2; [done|].
        intros [->|?]%elem_of_cons; done.
Qed.

Lemma initialTable_lookup (namespaces : list string) (ns : string) :
  initialTable namespaces !! ns
  = if bool_decide (ns ∈ namespaces) then Some [] else None.
Proof.
  unfold initialTable.
  by rewrite (foldl_insert_fn_lookup (fun _ => [])), lookup_empty.
Qed.

Lemma wildcardTable_lookup (namespaces : list string) (ns : string) :
  wildcardTable namespaces !! ns
  = if bool_decide (ns ∈ namespaces) then Some ["*"] else None.
Proof.
  unfold wildcardTable.
  rewrite (foldl_insert_fn_lookup (fun _ => ["*"])), initialTable_lookup.
  by case_bool_decide.
Qed.


Lemma includes_true (xs : list string) (x : string) :
  Str.includes xs x = true ↔ x ∈ xs.
Proof. unfold Str.includes. apply bool_decide_eq_true. Qed.

Lemma has_true (s : list string) (x : string) :
  JsSet.has s x = true ↔ x ∈ s.
Proof. unfold JsSet.has. apply bool_decide_eq_true. Qed.


(** The steps of the parser on a table that has its entries. The sets
    of the table keep every property [Q] that holds of the empty set and
    of the wildcard singleton and that survives adding "*" or a declared
    level. *)
Section Steps.

Variables namespaces levels : list string.
Variable Q : list string → Prop.
Hypothesis Q_empty : Q [].
Hypothesis Q_wildcard : Q ["*"].
Hypothesis Q_add : ∀ s lv, Q s → lv = "*" ∨ lv ∈ levels → Q (JsSet.add s lv).

Lemma wellFormed_insert (r : Table) (ns : string) (s : list string) :
  ns ∈ namespaces → Q s → wellFormed namespaces Q r →
  wellFormed namespaces Q (<[ns := s]> r).
Proof.
  intros Hin Hs [Hd HQ]. split.
  - intros n. destruct (decide (ns = n)) as [->|Hne].
    + rewrite lookup_insert_eq. split; [done | by eexists].
    + rewrite lookup_insert_ne by done. apply Hd.
  - intros n s'. destruct (decide (ns = n)) as [->|Hne].
    + rewrite lookup_insert_eq. by intros [= <-].
    + rewrite lookup_insert_ne by done. apply HQ.
Qed.

Lemma initialTable_wellFormed : wellFormed namespaces Q (initialTable namespaces).
Proof.
  split.
  - intros ns. rewrite initialTable_lookup.
    case_bool_decide; split; try done; by intros [? ?].
  - intros ns s. rewrite initialTable_lookup.
    case_bool_decide; [by intros [= <-] | done].
Qed.

Lemma wildcardTable_wellFormed : wellFormed namespaces Q (wildcardTable namespaces).
Proof.
  split.
  - intros ns. rewrite wildcardTable_lookup.
    case_bool_decide; split; try done; by intros [? ?].
  - intros ns s. rewrite wildcardTable_lookup.
    case_bool_decide; [by intros [= <-] | done].
Qed.

Lemma enable_wellFormed (level : option string) (ns : string) (r : Table) :
  ns ∈ namespaces → wellFormed namespaces Q r →
  ∃ r', enable levels level ns r = Ok r' ∧ wellFormed namespaces Q r'.
Proof.
  intros Hin Hr. unfold enable.
  destruct level as [lv|]; [destruct (Str.truthy lv)|].
  - destruct (bool_decide (lv = "*") || Str.includes levels lv) eqn:Hlv; [|eauto].
    unfold addLevel. destruct (proj2 (proj1 Hr ns) Hin) as [s Hs]. rewrite Hs.
    eexists; split; [done|]. apply wellFormed_insert; [done | | done].
    apply Q_add; [by apply (proj2 Hr ns)|].
    apply orb_true_iff in Hlv as [Hlv|Hlv].
    + left. by apply bool_decide_eq_true in Hlv.
    + right. by apply includes_true.
  - eexists; split; [done|]. by apply wellFormed_insert.
  - eexists; split; [done|]. by apply wellFormed_insert.
Qed.

Lemma inclusion_wellFormed (pattern : string) (r : Table) :
  wellFormed namespaces Q r →
  ∃ r', inclusion namespaces levels pattern r = Ok r' ∧ wellFormed namespaces Q r'.
Proof.
  intros Hr. unfold inclusion.
  destruct (nsAndLevel pattern) as [[ns|] level]; [|eauto].
  destruct (Str.falsy ns); [eauto|].
  case_bool_decide.
  - apply (forEach_invariant (wellFormed namespaces Q)); [done|].
    intros x s Hx Hs. by apply enable_wellFormed.
  - destruct (Str.includes namespaces ns) eqn:Hinc; [|eauto].
    apply enable_wellFormed; [|done]. by apply includes_true.
Qed.

Lemma exclusion_wellFormed (pattern : string) (r : Table) :
  wellFormed namespaces Q r →
  ∃ r', exclusion namespaces pattern r = Ok r' ∧ wellFormed namespaces Q r'.
Proof.
  intros Hr. unfold exclusion.
  destruct (excludedNs pattern) as [ns|]; [|eauto].
  destruct (Str.falsy ns); [eauto|].
  destruct (Str.includes namespaces ns) eqn:Hinc; [|eauto].
  eexists; split; [done|]. apply wellFormed_insert; [|done..].
  by apply includes_true.
Qed.

Lemma inclusions_wellFormed (patterns : list string) (r : Table) :
  wellFormed namespaces Q r →
  ∃ r', forEach (inclusion namespaces levels) patterns r = Ok r'
        ∧ wellFormed namespaces Q r'.
Proof.
  intros Hr. apply (forEach_invariant (wellFormed namespaces Q)); [done|].
  intros. by apply inclusion_wellFormed.
Qed.

Lemma exclusions_wellFormed (patterns : list string) (r : Table) :
  wellFormed namespaces Q r →
  ∃ r', forEach (exclusion namespaces) patterns r = Ok r'
        ∧ wellFormed namespaces Q r'.
Proof.
  intros Hr. apply (forEach_invariant (wellFormed namespaces Q)); [done|].
  intros. by apply exclusion_wellFormed.
Qed.

Lemma passes_wellFormed (debug : string) :
  ∃ t, passes namespaces levels debug = Ok t ∧ wellFormed namespaces Q t.
Proof.
  unfold passes.
  destruct (inclusions_wellFormed (inclusionsOf (patternsOf debug))
              (initialTable namespaces)) as (r1 & -> & H1).
  { apply initialTable_wellFormed. }
  simpl. by apply exclusions_wellFormed.
Qed.

End Steps.

Lemma parseDebugEnvVar_unfold (env : ProcessEnv) (namespaces levels : list string) :
  parseDebugEnvVar env namespaces levels
  = if bool_decide (debugOf env = "*") then Ok (wildcardTable namespaces)
    else passes namespaces levels (debugOf env).
Proof.
  unfold parseDebugEnvVar, passes, wildcardTable, initialTable.
  rewrite (forEach_pure (fun r ns => <[ns := []]> r)). simpl.
  case_bool_decide; [|done].
  apply (forEach_pure (fun r ns => <[ns := ["*"]]> r)).
Qed.

(** Construction never throws; the table has an entry for exactly the
    declared namespaces, and its sets keep every property [Q] as above. *)
Lemma parseDebugEnvVar_wellFormed (Q : list string → Prop) (env : ProcessEnv)
    (namespaces levels : list string) :
  Q [] → Q ["*"] →
  (∀ s lv, Q s → lv = "*" ∨ lv ∈ levels → Q (JsSet.add s lv)) →
  ∃ t, parseDebugEnvVar env namespaces levels = Ok t ∧ wellFormed namespaces Q t.
Proof.
  intros H0 H1 Hadd. rewrite parseDebugEnvVar_unfold. case_bool_decide.
  - eexists; split; [done|]. by apply wildcardTable_wellFormed.
  - by apply passes_wellFormed.
Qed.

Lemma parseDebugEnvVar_total (env : ProcessEnv) (namespaces levels : list string) :
  ∃ t, parseDebugEnvVar env namespaces levels = Ok t ∧ declaredIn namespaces t.
Proof.
  destruct (parseDebugEnvVar_wellFormed (fun _ => True) env namespaces levels)
    as (t & Ht & Hd & _); eauto.
Qed.

(** ** The query [isEnabled] *)

Lemma isEnabled_lookup (table : Table) (namespace level : string) :
  isEnabled table namespace level
  = match table !! namespace with
    | Some s => JsSet.has s "*" || JsSet.has s level
    | None => false
    end.
Proof.
  unfold isEnabled. destruct (table !! namespace) as [s|]; [|done].
  destruct (JsSet.has s "*") eqn:Hstar; [done|]. simpl.
  destruct s as [|x s]; [done|]. done.
Qed.

(** ** The fast path *)



(** ** Loops that change nothing, and the spread of one level *)





(** ** Specs of a single pattern *)







(** ** The tokens of a pattern *)

Lemma split_beforeFirst (sep : ascii) (s : string) :
  Str.split sep s
  = beforeFirst sep s :: match afterFirst sep s with
                         | Some rest => Str.split sep rest
                         | None => []
                         end.
Proof.
  induction s as [|c s IH]; simpl; [done|].
  destruct (Ascii.eqb c sep); [done|]. by rewrite IH.
Qed.

Lemma nsAndLevel_tokens (pattern : string) :
  nsAndLevel pattern
  = (Some (beforeFirst ":" pattern),
     beforeFirst ":" <$> afterFirst ":" pattern).
Proof.
  unfold nsAndLevel. rewrite split_beforeFirst. cbn [lookup list_lookup].
  destruct (afterFirst ":" pattern) as [rest|]; [|done].
  by rewrite split_beforeFirst.
Qed.




(** ** Exclusions *)









(** ** The severity threshold *)

Lemma indexOf_validLevels (sev : Severity) :
  indexOf validLevels sev = Z.of_nat (verbosity sev).
Proof. by destruct sev. Qed.

Lemma checkLevel_moreVerbose (st : Severity * bool) (level : string) :
  scanning st →
  fst (checkLevel st level) = moreVerbose (fst st) (pinoLevelOf level)
  ∧ scanning (checkLevel st level).
Proof.
  destruct st as [m f]. intros [Hfloor Hfound]. cbn [fst snd] in *.
  assert (moreVerbose m info = m) as Hinfo.
  { unfold moreVerbose. case_match eqn:Hlt; [|done].
    apply Nat.ltb_lt in Hlt. simpl in Hlt. lia. }
  unfold checkLevel, pinoLevelOf.
  destruct (bool_decide_reflect (level = "*")) as [Hstar|Hstar]; cbn [negb].
  { subst level. split; [symmetry; exact Hinfo | done]. }
  destruct (levelToPinoLevel level) as [sev|];
    [|split; [symmetry; exact Hinfo | done]].
  change (default info (Some sev)) with sev.
  rewrite !indexOf_validLevels. unfold moreVerbose.
  destruct (verbosity m <? verbosity sev)%nat eqn:Hlt.
  - apply Nat.ltb_lt in Hlt.
    rewrite (proj2 (Z.gtb_gt _ _)) by lia.
    split; [done|]. split; [simpl; lia | done].
  - apply Nat.ltb_ge in Hlt.
    destruct (Z.gtb_spec (Z.of_nat (verbosity sev)) (Z.of_nat (verbosity m)));
      [lia|]. done.
Qed.

Lemma foldl_checkLevel (levels : list string) (st : Severity * bool) :
  scanning st →
  fst (foldl checkLevel st levels)
  = foldl moreVerbose (fst st) (List.map pinoLevelOf levels)
  ∧ scanning (foldl checkLevel st levels).
Proof.
  revert st. induction levels as [|l levels IH]; intros st Hst; [done|].
  destruct (checkLevel_moreVerbose st l Hst) as [Hfst Hsc].
  cbn [foldl List.map]. rewrite <- Hfst. by apply IH.
Qed.

Lemma anyWildcard_cons (ns : string) (rest : list string) (t : Table)
    (s : list string) :
  t !! ns = Some s →
  anyWildcard (ns :: rest) t = JsSet.has s "*" || anyWildcard rest t.
Proof. intros Hs. unfold anyWildcard. simpl. by rewrite Hs. Qed.

Lemma enabledLevelsOf_cons (ns : string) (rest : list string) (t : Table)
    (s : list string) :
  t !! ns = Some s →
  enabledLevelsOf (ns :: rest) t = (s ++ enabledLevelsOf rest t)%list.
Proof. intros Hs. unfold enabledLevelsOf. simpl. by rewrite Hs. Qed.

Lemma scanNamespaces_floored (t : Table) (namespaces : list string)
    (st : Severity * bool) :
  scanning st → (∀ ns, ns ∈ namespaces → is_Some (t !! ns)) →
  scanNamespaces t namespaces st
  = Ok (if anyWildcard namespaces t then trace
        else foldl moreVerbose (fst st)
               (List.map pinoLevelOf (enabledLevelsOf namespaces t))).
Proof.
  revert st. induction namespaces as [|ns rest IH]; intros st Hst Hdecl.
  - destruct st as [m f]. destruct Hst as [_ Hfound]. simpl in *.
    destruct f; [done|]. by rewrite Hfound.
  - destruct (Hdecl ns) as [s Hs]; [by left|].
    rewrite (anyWildcard_cons ns rest t s Hs).
    rewrite (enabledLevelsOf_cons ns rest t s Hs).
    cbn [scanNamespaces]. rewrite Hs.
    destruct (JsSet.has s "*"); [done|]. cbn [orb].
    destruct (foldl_checkLevel s st Hst) as [Hfst Hsc].
    rewrite IH; [|done|].
    + by rewrite Hfst, List.map_app, foldl_app.
    + intros n Hn. apply Hdecl. by right.
Qed.

Lemma getMinLogLevel_total (env : ProcessEnv) (namespaces : list string) (t : Table) :
  declaredIn namespaces t → ∃ sev, getMinLogLevel env namespaces t = Ok sev.
Proof.
  intros Hd. unfold getMinLogLevel.
  assert (∃ sev, scanNamespaces t namespaces (info, false) = Ok sev) as Hscan.
  { rewrite scanNamespaces_floored; [by eexists | by split |].
    intros ns Hns. by apply Hd. }
  destruct (LOG_LEVEL env) as [configured|]; [|done].
  destruct (levelToPinoLevel configured); [by eexists | done].
Qed.





(** ** Placeholder substitution *)

Lemma piecesOf_step (c d : ascii) (rest : string) :
  piecesOf (String c (String d rest))
  = if Ascii.eqb c "%" && isPlaceholderLetter d
    then Hole d :: piecesOf rest
    else Plain c :: piecesOf (String d rest).
Proof. done. Qed.

Lemma replacePlaceholders_step (callback : string → nat → string * nat)
    (c d : ascii) (rest : string) (argIndex : nat) :
  replacePlaceholders callback (String c (String d rest)) argIndex
  = if Ascii.eqb c "%" && isPlaceholderLetter d then
      let '(out, argIndex') := callback (String c (String d EmptyString)) argIndex in
      let '(tail, argIndex'') := replacePlaceholders callback rest argIndex' in
      (out ++ tail, argIndex'')
    else
      let '(tail, argIndex') :=
        replacePlaceholders callback (String d rest) argIndex in
      (String c tail, argIndex').
Proof. done. Qed.

Lemma textOf_piecesOf (s : string) : textOf (piecesOf s) = s.
Proof.
  assert (textOf (piecesOf s) = s
          ∧ ∀ c, textOf (piecesOf (String c s)) = String c s) as [H _]; [|done].
  induction s as [|d s [IH1 IH2]]; [done|].
  split; [apply IH2|]. intros c. rewrite piecesOf_step.
  destruct (Ascii.eqb c "%" && isPlaceholderLetter d) eqn:Hm.
  - apply andb_true_iff in Hm as [->%Ascii.eqb_eq _].
    cbn [textOf]. by rewrite IH1.
  - cbn [textOf]. by rewrite IH2.
Qed.

Lemma noPlainPlaceholder_piecesOf (s : string) :
  noPlainPlaceholder (piecesOf s) = true.
Proof.
  assert (noPlainPlaceholder (piecesOf s) = true
          ∧ ∀ c, noPlainPlaceholder (piecesOf (String c s)) = true) as [H _];
    [|done].
  induction s as [|d s [IH1 IH2]]; [done|].
  split; [apply IH2|]. intros c. rewrite piecesOf_step.
  destruct (Ascii.eqb c "%" && isPlaceholderLetter d) eqn:Hm.
  - apply andb_true_iff in Hm as [_ Hd]. cbn [noPlainPlaceholder].
    by rewrite Hd, IH1.
  - specialize (IH2 d). cbn [noPlainPlaceholder].
    destruct (piecesOf (String d s)) as [|[e|e] ps] eqn:Hps; [done| |done].
    assert (e = d) as ->.
    { destruct s as [|d' s'].
      - by injection Hps as ->.
      - rewrite piecesOf_step in Hps.
        destruct (Ascii.eqb d "%" && isPlaceholderLetter d'); [done|].
        by injection Hps as -> _. }
    by rewrite Hm, IH2.
Qed.

Section Substitution.

Context {any : Type}.
Variable toStr : any → string.
Variable parseIntStr : any → string.
Variable parseFloatStr : any → string.
Variable isObject : any → bool.

Abbreviation draw := (render toStr parseIntStr parseFloatStr isObject).

(** The scan from argument [argIndex] on: the text is the pieces filled
    from the arguments that remain, and the arguments left at the end
    are those not taken by a placeholder. *)
Lemma replacePlaceholders_fill (args : list any) (s : string) (argIndex : nat) :
  let '(out, argIndex') :=
    replacePlaceholders (substitute toStr parseIntStr parseFloatStr isObject args)
      s argIndex in
  out = fill draw (piecesOf s) (drop argIndex args)
  ∧ drop argIndex' args = drop (holes (piecesOf s)) (drop argIndex args).
Proof.
  revert argIndex.
  assert ((∀ i, let '(out, j) :=
                  replacePlaceholders
                    (substitute toStr parseIntStr parseFloatStr isObject args) s i in
                out = fill draw (piecesOf s) (drop i args)
                ∧ drop j args = drop (holes (piecesOf s)) (drop i args))
          ∧ ∀ c i, let '(out, j) :=
                     replacePlaceholders
                       (substitute toStr parseIntStr parseFloatStr isObject args)
                       (String c s) i in
                   out = fill draw (piecesOf (String c s)) (drop i args)
                   ∧ drop j args
                     = drop (holes (piecesOf (String c s))) (drop i args))
    as [H _]; [|done].
  induction s as [|d s [IH1 IH2]].
  - split; [done|]. intros c i. done.
  - split; [apply IH2|]. intros c i.
    rewrite replacePlaceholders_step, piecesOf_step.
    destruct (Ascii.eqb c "%" && isPlaceholderLetter d) eqn:Hm.
    + apply andb_true_iff in Hm as [->%Ascii.eqb_eq _].
      unfold substitute at 1.
      destruct (args !! i) as [arg|] eqn:Harg.
      * specialize (IH1 (S i)).
        destruct (replacePlaceholders _ s (S i)) as [tail j].
        destruct IH1 as [-> Hj].
        rewrite (drop_S _ _ _ Harg). cbn [fill]. split; [done|].
        by rewrite Hj.
      * specialize (IH1 i).
        destruct (replacePlaceholders _ s i) as [tail j].
        destruct IH1 as [-> Hj].
        apply lookup_ge_None in Harg.
        rewrite (drop_ge args i) in * by done. cbn [fill]. split; [done|].
        by rewrite Hj, !drop_nil.
    + specialize (IH2 d i).
      destruct (replacePlaceholders _ (String d s) i) as [tail j].
      destruct IH2 as [-> Hj]. cbn [fill]. done.
Qed.

(** C10. [formatMessage] cuts the message at the occurrences of
    [%s %d %i %f %j %o %O] read left to right (the pieces spell the
    message, and no occurrence is left among the plain code units); each
    placeholder takes the next argument in order, and a placeholder met
    when no argument remains stays verbatim; [unusedArgs] is the
    argument list without the arguments taken, which are its first
    [min placeholders arguments] ones. *)
Theorem formatMessage_spec (msg : string) (args : list any) :
  let pieces := piecesOf msg in
  let consumed := (holes pieces `min` length args)%nat in
  let result := formatMessage toStr parseIntStr parseFloatStr isObject msg args in
  textOf pieces = msg
  ∧ noPlainPlaceholder pieces = true
  ∧ message result = fill draw pieces args
  ∧ unusedArgs result = drop consumed args
  ∧ args = (take consumed args ++ unusedArgs result)%list.
Proof.
  intros pieces consumed result.
  split; [apply textOf_piecesOf|]. split; [apply noPlainPlaceholder_piecesOf|].
  assert (message result = fill draw pieces args
          ∧ unusedArgs result = drop consumed args) as [Hm Hu].
  { subst result. unfold formatMessage.
    pose proof (replacePlaceholders_fill args msg 0) as H.
    destruct (replacePlaceholders _ msg 0) as [out j].
    destruct H as [-> Hj]. cbn [message unusedArgs]. split; [done|].
    rewrite Hj. cbn [drop]. subst consumed. fold pieces.
    destruct (Nat.min_spec (holes pieces) (length args)) as [[_ ->]|[Hle ->]];
      [done|].
    by rewrite !drop_ge by done. }
  split; [done|]. split; [done|]. rewrite Hu. by rewrite take_drop.
Qed.

End Substitution.

Example formatMessage_example :
  formatMessage (fun s : string => s) (fun s => s) (fun s => s) (fun _ => false)
    "%s is %d%% of %s, %o %x" ["a"; "50"; "b"]
  = mkFormatted "a is 50%% of b, %o %x" []
  ∧ formatMessage (fun s : string => s) (fun s => s) (fun s => s) (fun _ => false)
      "port %d" ["3000"; "extra"; "more"]
    = mkFormatted "port 3000" ["extra"; "more"].
Proof. split; reflexivity. Qed.

(** ** The matrix of log functions *)

Section FactoryFacts.

Context {any Handle Pino : Type}.
Variable toStr : any → string.
Variable parseIntStr : any → string.
Variable parseFloatStr : any → string.
Variable isObject : any → bool.
Variable asString : any → option string.
Variable pino : string → Handle.
Variable child : Handle → string → string → Handle.
Variable isLevelEnabled : Pino → Handle → Severity → bool.
Variable emit : Handle → Severity → option (Payload any) → option string →
                Pino → Pino.

Abbreviation logFn' :=
  (logFn toStr parseIntStr parseFloatStr isObject asString isLevelEnabled emit).
Abbreviation helloInnit' :=
  (helloInnit toStr parseIntStr parseFloatStr isObject asString pino child
     isLevelEnabled emit).
Abbreviation makeLogFunction' :=
  (makeLogFunction toStr parseIntStr parseFloatStr isObject asString child
     isLevelEnabled emit).



Lemma callEngine_emitted (envLogger : Handle) (pinoLevel : Severity)
    (obj : option (Payload any)) (txt : option string) (w : World any Handle Pino) :
  emitted (callEngine emit envLogger pinoLevel obj txt w)
  = (emitted w ++ [mkCall envLogger pinoLevel obj txt])%list.
Proof. done. Qed.



End FactoryFacts.


Example demo_run :
  ∃ hello,
    Demo.helloInnit (envDebug "app:info,-api") ["app"; "api"] ["info"; "error"]
    = Ok hello
    ∧ (λ r, (emitted r.1, r.2)) <$>
        match run hello [ARead "app" "info"; ARead "api" "info";
                         ACall "app" "info" (Message "port %d") ["3000"; "x"];
                         ACall "api" "info" (Message "dropped") [];
                         ACall "api" "error" (Obj "err") ["failed %s"; "now"]]
                Demo.start with
        | Ok r => Some r
        | TypeError => None
        end
      = Some ([mkCall "pino:info/namespace=app/environment=info" info
                 (Some (ArgsOnly ["x"])) (Some "port 3000");
               mkCall "pino:info/namespace=api/environment=error" error
                 (Some (Same "err")) (Some "failed now")],
              [true; false]).
Proof. eexists. split; [by vm_compute|]. by vm_compute. Qed.

(** * Further properties *)

(** ** What a spec asks for *)

Example createDebugPatterns_example :
  createDebugPatterns ["app"; "api"] ["info"; "error"]
  = "app:info,api:info,app:error,api:error".
Proof. reflexivity. Qed.


Lemma has_add (s : list string) (lv x : string) :
  JsSet.has (JsSet.add s lv) x = JsSet.has s x || bool_decide (lv = x).
Proof.
  unfold JsSet.add. destruct (JsSet.has s lv) eqn:Hlv.
  - case_bool_decide as Hx; [|by rewrite orb_false_r].
    subst x. by rewrite Hlv.
  - apply eq_true_iff_eq. rewrite orb_true_iff, !has_true, elem_of_app.
    rewrite bool_decide_eq_true, list_elem_of_singleton.
    split; intros [?|?]; auto.
Qed.











(** ** Order and composition of patterns *)





Lemma split_nonempty (sep : ascii) (s : string) : Str.split sep s ≠ [].
Proof.
  destruct s as [|c s]; simpl; [done|].
  destruct (Ascii.eqb c sep); [done|]. by destruct (Str.split sep s).
Qed.

Lemma split_app_sep (sep : ascii) (a b : string) :
  Str.split sep (a ++ String sep b) = (Str.split sep a ++ Str.split sep b)%list.
Proof.
  induction a as [|x a IH]; simpl.
  - by rewrite Ascii.eqb_refl.
  - destruct (Ascii.eqb x sep); [by rewrite IH|].
    rewrite IH. pose proof (split_nonempty sep a) as Hne.
    by destruct (Str.split sep a).
Qed.



(** ** What the table holds *)










(** ** [createDebugPatterns] and the parser *)

Lemma beforeFirst_absent (c : ascii) (a : string) :
  afterFirst c a = None → beforeFirst c a = a.
Proof.
  induction a as [|x a IH]; simpl; [done|].
  destruct (Ascii.eqb x c); [done|]. intros H. by rewrite IH.
Qed.

Lemma afterFirst_app_absent (c : ascii) (a b : string) :
  afterFirst c a = None → afterFirst c (a ++ b) = afterFirst c b.
Proof.
  induction a as [|x a IH]; simpl; [done|].
  by destruct (Ascii.eqb x c).
Qed.

Lemma beforeFirst_app_sep (c : ascii) (a b : string) :
  afterFirst c a = None → beforeFirst c (a ++ String c b) = a.
Proof.
  induction a as [|x a IH]; simpl.
  - by rewrite Ascii.eqb_refl.
  - destruct (Ascii.eqb x c); [done|]. intros H. by rewrite IH.
Qed.

Lemma split_absent (c : ascii) (a : string) :
  afterFirst c a = None → Str.split c a = [a].
Proof.
  intros H. by rewrite split_beforeFirst, H, beforeFirst_absent.
Qed.

(** [xs.join(",").split(",")] gives [xs] back when no element holds a
    comma and there is an element. *)
Lemma split_join (c : ascii) (xs : list string) :
  xs ≠ [] → Forall (fun x => afterFirst c x = None) xs →
  Str.split c (Arr.join (String c EmptyString) xs) = xs.
Proof.
  intros Hne Hall. induction Hall as [|x xs Hx Hxs IH]; [done|].
  destruct xs as [|y rest].
  - by apply split_absent.
  - change (Arr.join (String c "") (x :: y :: rest))
      with (x ++ String c (Arr.join (String c "") (y :: rest))).
    rewrite split_app_sep, split_absent by done. by rewrite IH.
Qed.

Lemma trimEnd_app (a b : string) :
  Str.trimEnd b = b → b ≠ "" → Str.trimEnd (a ++ b) = a ++ b.
Proof.
  intros Hb Hne. induction a as [|x a IH]; [done|].
  change (String x a ++ b) with (String x (a ++ b)).
  cbn [Str.trimEnd]. rewrite IH.
  assert (Str.falsy (a ++ b) = false) as ->; [|by rewrite andb_false_r].
  destruct a; [|done]. change ("" ++ b) with b. by destruct b.
Qed.

(** The pattern [`${namespace}:${env}`] of a safe namespace and level. *)
Lemma pattern_shape (ns lvl : string) :
  patternSafeNamespace ns = true → patternSafeLevel lvl = true →
  let p := ns ++ ":" ++ lvl in
  afterFirst "," p = None ∧ Str.trim p = p ∧ Str.truthy p = true
  ∧ Str.startsWith "-" p = false ∧ nsAndLevel p = (Some ns, Some lvl)
  ∧ Str.truthy ns = true ∧ Str.truthy lvl = true.
Proof.
  unfold patternSafeNamespace, patternSafeLevel, hasChar.
  destruct ns as [|c ns]; [done|].
  intros [[[Hws Hdash]%andb_true_iff Hcomma]%andb_true_iff Hcolon]%andb_true_iff.
  intros [[[Hlvl Hlcomma]%andb_true_iff Hlcolon]%andb_true_iff Htrim]%andb_true_iff.
  apply negb_true_iff in Hws, Hdash.
  apply bool_decide_eq_true in Htrim.
  destruct (afterFirst "," (String c ns)) eqn:Hc1; [done|].
  destruct (afterFirst ":" (String c ns)) eqn:Hc2; [done|].
  destruct (afterFirst "," lvl) eqn:Hc3; [done|].
  destruct (afterFirst ":" lvl) eqn:Hc4; [done|].
  cbv zeta. repeat split.
  - by rewrite afterFirst_app_absent.
  - unfold Str.trim.
    assert (Str.trimStart (String c ns ++ ":" ++ lvl) = String c ns ++ ":" ++ lvl)
      as ->.
    { simpl. by rewrite Hws. }
    apply trimEnd_app; [|done].
    apply (trimEnd_app ":" lvl); [done|]. by destruct lvl.
  - by simpl.
  - rewrite nsAndLevel_tokens.
    change (String c ns ++ ":" ++ lvl) with (String c ns ++ String ":" lvl).
    rewrite beforeFirst_app_sep by done.
    rewrite afterFirst_app_absent by done. simpl.
    by rewrite beforeFirst_absent.
  - done.
Qed.

Lemma patternsOf_safe (ps : list string) :
  Forall (fun p => afterFirst "," p = None ∧ Str.trim p = p ∧ Str.truthy p = true) ps →
  patternsOf (Arr.join "," ps) = ps.
Proof.
  intros Hall. unfold patternsOf. destruct ps as [|p ps]; [done|].
  rewrite split_join; [|done|].
  - induction Hall as [|q qs (_ & Htrim & Htruthy) _ IH]; [done|].
    simpl. rewrite Htrim, Htruthy. by rewrite IH.
  - eapply Forall_impl; [done|]. by intros q (? & _).
Qed.

(** The list that [flatMap] and [map] build. *)
Lemma createDebugPatterns_elements (namespaces levels : list string) (p : string) :
  p ∈ flat_map (fun env => List.map (fun namespace => namespace ++ ":" ++ env)
                             namespaces) levels
  ↔ ∃ ns lvl, ns ∈ namespaces ∧ lvl ∈ levels ∧ p = ns ++ ":" ++ lvl.
Proof.
  rewrite list_elem_of_In, in_flat_map. split.
  - intros (lvl & Hl & (ns & <- & Hn)%in_map_iff).
    exists ns, lvl. by rewrite !list_elem_of_In.
  - intros (ns & lvl & Hn & Hl & ->). exists lvl.
    split; [by apply list_elem_of_In|]. apply in_map_iff. exists ns.
    split; [done | by apply list_elem_of_In].
Qed.

Lemma createDebugPatterns_patterns (namespaces levels : list string) :
  forallb patternSafeNamespace namespaces = true →
  forallb patternSafeLevel levels = true →
  patternsOf (createDebugPatterns namespaces levels)
  = flat_map (fun env => List.map (fun namespace => namespace ++ ":" ++ env)
                           namespaces) levels.
Proof.
  intros HN HL. unfold createDebugPatterns. apply patternsOf_safe.
  apply Forall_forall. intros p (ns & lvl & Hns & Hlvl & ->)%createDebugPatterns_elements.
  rewrite forallb_forall in HN, HL.
  destruct (pattern_shape ns lvl) as (? & ? & ? & _).
  - apply HN. by apply list_elem_of_In.
  - apply HL. by apply list_elem_of_In.
  - done.
Qed.

(** X8. For namespaces and levels that a pattern can name,
    [createDebugPatterns] writes one pattern per pair, levels outermost,
    and the parser reads back exactly these patterns, in that order. *)
Theorem createDebugPatterns_read_back (namespaces levels : list string) :
  forallb patternSafeNamespace namespaces = true →
  forallb patternSafeLevel levels = true →
  patternsOf (createDebugPatterns namespaces levels)
  = flat_map (fun env => List.map (fun namespace => namespace ++ ":" ++ env)
                           namespaces) levels
  ∧ length (patternsOf (createDebugPatterns namespaces levels))
    = (length levels * length namespaces)%nat
  ∧ ∀ p, p ∈ patternsOf (createDebugPatterns namespaces levels) →
         ∃ ns lvl, ns ∈ namespaces ∧ lvl ∈ levels
                   ∧ nsAndLevel p = (Some ns, Some lvl)
                   ∧ Str.startsWith "-" p = false.
Proof.
  intros HN HL. rewrite (createDebugPatterns_patterns _ _ HN HL).
  split; [done|]. split.
  - clear HL. induction levels as [|l levels IH]; simpl; [done|].
    by rewrite length_app, length_map, IH.
  - intros p (ns & lvl & Hns & Hlvl & ->)%createDebugPatterns_elements.
    exists ns, lvl. split; [done|]. split; [done|].
    rewrite forallb_forall in HN, HL.
    destruct (pattern_shape ns lvl) as (_ & _ & _ & ? & ? & _); [| |done].
    + apply HN. by apply list_elem_of_In.
    + apply HL. by apply list_elem_of_In.
Qed.

Lemma createDebugPatterns_read_back_witness :
  patternsOf (createDebugPatterns ["app"; "api"] ["info"; "error"])
  = ["app:info"; "api:info"; "app:error"; "api:error"].
Proof.
  apply (createDebugPatterns_read_back ["app"; "api"] ["info"; "error"]);
    reflexivity.
Defined.

Lemma createDebugPatterns_not_star (namespaces levels : list string) :
  forallb patternSafeNamespace namespaces = true →
  forallb patternSafeLevel levels = true →
  createDebugPatterns namespaces levels ≠ "*".
Proof.
  intros HN HL Hstar.
  pose proof (createDebugPatterns_patterns _ _ HN HL) as Hp.
  rewrite Hstar in Hp. change (patternsOf "*") with ["*"] in Hp.
  assert ("*" ∈ ["*"]) as Hin by apply list_elem_of_here.
  rewrite Hp in Hin.
  apply createDebugPatterns_elements in Hin as (ns & lvl & Hns & Hlvl & Heq).
  rewrite forallb_forall in HN, HL.
  destruct (pattern_shape ns lvl) as (_ & _ & _ & _ & Htok & _).
  - apply HN. by apply list_elem_of_In.
  - apply HL. by apply list_elem_of_In.
  - cbv zeta in Htok. rewrite <- Heq in Htok. discriminate Htok.
Qed.




(** ** The threshold and the table *)







Lemma levelToPinoLevel_names (name : string) (sev : Severity) :
  levelToPinoLevel name = Some sev ↔ name = severityName sev.
Proof.
  split.
  - unfold levelToPinoLevel.
    repeat (case_bool_decide as H; [subst name; by intros [= <-]|clear H]).
    done.
  - intros ->. by destruct sev.
Qed.

(** X11. [LOG_LEVEL] overrides the computed threshold when it is one
    of the six severity names, spelled in lower case; it is then
    returned whatever the table holds, even a table without the entries
    of the declared namespaces. Any other value that is not the name of
    a member inherited from [Object.prototype], such as "silent" or
    "ERROR", is ignored: the result is that for [LOG_LEVEL] unset. *)
Theorem log_level_override (debug : option string) (name : string)
    (namespaces : list string) (t : Table) :
  (∀ sev, name = severityName sev →
          getMinLogLevel (mkEnv debug (Some name)) namespaces t = Ok sev)
  ∧ ((∀ sev, name ≠ severityName sev) → inheritedName name = false →
     getMinLogLevel (mkEnv debug (Some name)) namespaces t
     = getMinLogLevel (mkEnv debug None) namespaces t).
Proof.
  unfold getMinLogLevel. cbn [LOG_LEVEL]. split.
  - intros sev Hname. apply levelToPinoLevel_names in Hname. by rewrite Hname.
  - intros Hnone _. destruct (levelToPinoLevel name) as [sev|] eqn:Hsev; [|done].
    apply levelToPinoLevel_names in Hsev. by destruct (Hnone sev).
Qed.

Lemma log_level_override_witness :
  getMinLogLevel (mkEnv (Some "*") (Some "error")) ["app"] ∅ = Ok error
  ∧ getMinLogLevel (mkEnv (Some "*") (Some "silent")) ["app"] {["app" := ["*"]]}
    = getMinLogLevel (mkEnv (Some "*") None) ["app"] {["app" := ["*"]]}.
Proof.
  split.
  - apply (log_level_override (Some "*") "error" ["app"] ∅). reflexivity.
  - apply (log_level_override (Some "*") "silent" ["app"] {["app" := ["*"]]}).
    + intros sev. destruct sev; discriminate.
    + reflexivity.
Defined.

(** ** Messages without substitution *)

Lemma fill_no_args {any : Type} (draw : string → any → string) (ps : list Piece) :
  fill draw ps [] = textOf ps.
Proof.
  induction ps as [|[c|d] ps IH]; simpl; [done| |]; by rewrite IH.
Qed.

Lemma piecesOf_no_percent (s : string) :
  hasChar "%" s = false → holes (piecesOf s) = 0%nat.
Proof.
  unfold hasChar.
  assert ((afterFirst "%" s = None → holes (piecesOf s) = 0%nat)
          ∧ ∀ c, afterFirst "%" (String c s) = None →
                 holes (piecesOf (String c s)) = 0%nat) as [H _].
  { induction s as [|d s [IH1 IH2]]; [split; [done|]; intros c; simpl;
      by destruct (Ascii.eqb c "%")|].
    split; [apply IH2|]. intros c Hc. rewrite piecesOf_step.
    simpl in Hc. destruct (Ascii.eqb c "%") eqn:Hpct; [done|].
    cbn [andb]. change (holes (Plain c :: piecesOf (String d s)))
      with (holes (piecesOf (String d s))).
    apply IH2. by simpl. }
  destruct (afterFirst "%" s); [done|]. intros _. by apply H.
Qed.

Lemma fill_no_holes {any : Type} (draw : string → any → string) (ps : list Piece)
    (args : list any) :
  holes ps = 0%nat → fill draw ps args = textOf ps.
Proof.
  induction ps as [|[c|d] ps IH]; simpl; [done| |done].
  intros H. by rewrite IH.
Qed.

Section SubstitutionMore.

Context {any : Type}.
Variable toStr : any → string.
Variable parseIntStr : any → string.
Variable parseFloatStr : any → string.
Variable isObject : any → bool.

Abbreviation formatMessage' :=
  (formatMessage toStr parseIntStr parseFloatStr isObject).

Lemma formatMessage_pieces (msg : string) (args : list any) :
  formatMessage' msg args
  = mkFormatted
      (fill (render toStr parseIntStr parseFloatStr isObject) (piecesOf msg) args)
      (drop (holes (piecesOf msg)) args).
Proof.
  unfold formatMessage.
  pose proof (replacePlaceholders_fill toStr parseIntStr parseFloatStr isObject
                args msg 0) as H.
  destruct (replacePlaceholders _ msg 0) as [out j].
  destruct H as [-> Hj]. by rewrite Hj.
Qed.

(** X12. A message is returned unchanged, with every argument unused,
    when it holds no '%'; and a message given no argument is returned
    unchanged, placeholders included. *)
Theorem formatMessage_unchanged (msg : string) (args : list any) :
  (hasChar "%" msg = false → formatMessage' msg args = mkFormatted msg args)
  ∧ formatMessage' msg [] = mkFormatted msg [].
Proof.
  split.
  - intros Hno. rewrite formatMessage_pieces.
    pose proof (piecesOf_no_percent msg Hno) as Hholes.
    by rewrite fill_no_holes, Hholes, textOf_piecesOf.
  - rewrite formatMessage_pieces.
    by rewrite fill_no_args, textOf_piecesOf, drop_nil.
Qed.

End SubstitutionMore.

Lemma formatMessage_unchanged_witness :
  formatMessage (fun s : string => s) (fun s => s) (fun s => s) (fun _ => false)
    "listening on port 3000" ["a"; "b"]
  = mkFormatted "listening on port 3000" ["a"; "b"].
Proof.
  apply (formatMessage_unchanged (fun s : string => s) (fun s => s) (fun s => s)
           (fun _ => false) "listening on port 3000" ["a"; "b"]).
  reflexivity.
Defined.

(** ** More on the matrix and its log functions *)

Section FactoryMore.

Context {any Handle Pino : Type}.
Variable toStr : any → string.
Variable parseIntStr : any → string.
Variable parseFloatStr : any → string.
Variable isObject : any → bool.
Variable asString : any → option string.
Variable pino : string → Handle.
Variable child : Handle → string → string → Handle.
Variable isLevelEnabled : Pino → Handle → Severity → bool.
Variable emit : Handle → Severity → option (Payload any) → option string →
                Pino → Pino.

Abbreviation logFn'' :=
  (logFn toStr parseIntStr parseFloatStr isObject asString isLevelEnabled emit).
Abbreviation helloInnit'' :=
  (helloInnit toStr parseIntStr parseFloatStr isObject asString pino child
     isLevelEnabled emit).
Abbreviation makeLogFunction'' :=
  (makeLogFunction toStr parseIntStr parseFloatStr isObject asString child
     isLevelEnabled emit).
Abbreviation draw' := (render toStr parseIntStr parseFloatStr isObject).



End FactoryMore.

Section LogFnArguments.

Context {any Handle Pino : Type}.
Variable toStr : any → string.
Variable parseIntStr : any → string.
Variable parseFloatStr : any → string.
Variable isObject : any → bool.
Variable asString : any → option string.
Variable pino : string → Handle.
Variable child : Handle → string → string → Handle.
Variable isLevelEnabled : Pino → Handle → Severity → bool.
Variable emit : Handle → Severity → option (Payload any) → option string →
                Pino → Pino.

Abbreviation logFn3 :=
  (logFn toStr parseIntStr parseFloatStr isObject asString isLevelEnabled emit).
Abbreviation helloInnit3 :=
  (helloInnit toStr parseIntStr parseFloatStr isObject asString pino child
     isLevelEnabled emit).
Abbreviation draw3 := (render toStr parseIntStr parseFloatStr isObject).

Lemma leftover_test (h : nat) (args : list any) :
  (0 <? length (drop h args))%nat = (h <? length args)%nat.
Proof.
  rewrite length_drop.
  destruct (Nat.ltb_spec h (length args)); [apply Nat.ltb_lt | apply Nat.ltb_ge]; lia.
Qed.

(** X15. A string message that passes the guard reaches the engine
    formatted, each placeholder filled from the arguments in order; the
    arguments that no placeholder took are not lost: they travel, in
    order, under [args] in the object given to the engine, and no object
    is given when every argument was taken. *)
Theorem string_message_arguments (t : Table) (namespace level : string)
    (envLogger : Handle) (pinoLevel : Severity) (msg : string) (args : list any)
    (w : World any Handle Pino) :
  isEnabled t namespace level || isLevelEnabled (engine w) envLogger pinoLevel
  = true →
  let taken := holes (piecesOf msg) in
  logFn3 t namespace level envLogger pinoLevel (Message msg) args w
  = callEngine emit envLogger pinoLevel
      (if (taken <? length args)%nat then Some (ArgsOnly (drop taken args)) else None)
      (Some (fill draw3 (piecesOf msg) args)) w.
Proof.
  intros Hgate taken. unfold logFn.
  assert (negb (isEnabled t namespace level)
          && negb (isLevelEnabled (engine w) envLogger pinoLevel) = false) as ->.
  { rewrite <- negb_orb. by rewrite Hgate. }
  rewrite formatMessage_pieces. cbn [message unusedArgs].
  rewrite leftover_test. fold taken. by destruct (taken <? length args)%nat.
Qed.

(** X16. After an object argument, the next argument is the message
    only when it is a non-empty string. Without such a message the
    engine gets the object alone and every further argument is dropped;
    with it, the message is formatted from the arguments after it, and
    those left over travel under [args] in a copy of the object. *)
Theorem object_message_arguments (t : Table) (namespace level : string)
    (envLogger : Handle) (pinoLevel : Severity) (o : any) (args : list any)
    (w : World any Handle Pino) :
  isEnabled t namespace level || isLevelEnabled (engine w) envLogger pinoLevel
  = true →
  logFn3 t namespace level envLogger pinoLevel (Obj o) args w
  = match leadingText asString args with
    | None => callEngine emit envLogger pinoLevel (Some (Same o)) None w
    | Some m =>
        let rest := drop 1 args in
        let taken := holes (piecesOf m) in
        callEngine emit envLogger pinoLevel
          (Some (if (taken <? length rest)%nat
                 then Spread o (drop taken rest) else Same o))
          (Some (fill draw3 (piecesOf m) rest)) w
    end.
Proof.
  intros Hgate. unfold logFn, leadingText.
  assert (negb (isEnabled t namespace level)
          && negb (isLevelEnabled (engine w) envLogger pinoLevel) = false) as ->.
  { rewrite <- negb_orb. by rewrite Hgate. }
  destruct args as [|a args]; [done|].
  destruct (asString a) as [m|]; [|done].
  destruct (Str.truthy m); [|done].
  rewrite formatMessage_pieces. cbn [message unusedArgs].
  rewrite leftover_test. by destruct (_ <? _)%nat.
Qed.


End LogFnArguments.

Lemma string_message_arguments_witness :
  logFn (fun s : string => s) (fun s => s) (fun s => s) (fun _ => false) Some
    Demo.isLevelEnabled Demo.emit {["app" := ["info"]]} "app" "info" "app/info"
    info (Message "port %d on %s") ["3000"; "eth0"; "x"; "y"] Demo.start
  = mkWorld 1 [mkCall "app/info" info (Some (ArgsOnly ["x"; "y"]))
                 (Some "port 3000 on eth0")].
Proof.
  apply (string_message_arguments (fun s : string => s) (fun s => s) (fun s => s)
           (fun _ => false) Some Demo.isLevelEnabled Demo.emit
           {["app" := ["info"]]} "app" "info" "app/info" info "port %d on %s"
           ["3000"; "eth0"; "x"; "y"] Demo.start).
  reflexivity.
Defined.

Lemma object_message_arguments_witness :
  logFn (fun s : string => s) (fun s => s) (fun s => s) (fun _ => false) Some
    Demo.isLevelEnabled Demo.emit {["app" := ["info"]]} "app" "info" "app/info"
    info (Obj "err") [""; "lost"; "too"] Demo.start
  = mkWorld 1 [mkCall "app/info" info (Some (Same "err")) None]
  ∧ logFn (fun s : string => s) (fun s => s) (fun s => s) (fun _ => false) Some
      Demo.isLevelEnabled Demo.emit {["app" := ["info"]]} "app" "info" "app/info"
      info (Obj "err") ["failed %s"; "now"; "kept"] Demo.start
    = mkWorld 1 [mkCall "app/info" info (Some (Spread "err" ["kept"]))
                   (Some "failed now")].
Proof.
  split.
  - apply (object_message_arguments (fun s : string => s) (fun s => s) (fun s => s)
             (fun _ => false) Some Demo.isLevelEnabled Demo.emit
             {["app" := ["info"]]} "app" "info" "app/info" info "err"
             [""; "lost"; "too"] Demo.start).
    reflexivity.
  - apply (object_message_arguments (fun s : string => s) (fun s => s) (fun s => s)
             (fun _ => false) Some Demo.isLevelEnabled Demo.emit
             {["app" := ["info"]]} "app" "info" "app/info" info "err"
             ["failed %s"; "now"; "kept"] Demo.start).
    reflexivity.
Defined.


(** * Names inherited from [Object.prototype] *)

(** ** The reads, with and without the prototype chain *)

Lemma isEnabledOrThrow_lookup (table : Table) (namespace level : string) :
  isEnabledOrThrow table namespace level
  = match table !! namespace with
    | Some s => Ok (JsSet.has s "*" || JsSet.has s level)
    | None => if inheritedName namespace then TypeError else Ok false
    end.
Proof.
  unfold isEnabledOrThrow, member.
  destruct (table !! namespace) as [s|]; [|by destruct (inheritedName namespace)].
  destruct (JsSet.has s "*"); [done|]. by destruct s.
Qed.

(** Where the namespace has an entry, or is not the name of an inherited
    member, the read of line 155 sees what the own keys hold. *)
Lemma isEnabledOrThrow_returns (table : Table) (namespace level : string) :
  is_Some (table !! namespace) ∨ inheritedName namespace = false →
  isEnabledOrThrow table namespace level = Ok (isEnabled table namespace level).
Proof.
  rewrite isEnabledOrThrow_lookup, isEnabled_lookup.
  intros [[s ->]| ->]; [done|]. by destruct (table !! namespace).
Qed.

Lemma pinoLevelRead_severity (level : string) :
  inheritedName level = false → pinoLevelRead level = Level (pinoLevelOf level).
Proof.
  unfold pinoLevelRead, pinoLevelOf. intros ->.
  by destruct (levelToPinoLevel level).
Qed.

Lemma not_elem_of_decide (x : string) (xs : list string) :
  bool_decide (x ∈ xs) = false → x ∉ xs.
Proof. apply bool_decide_eq_false. Qed.

(** ** The query [isEnabled] *)

(** C6, as the code has it. [isEnabled(table, namespace, level)] returns
    true exactly when the table has an entry for the namespace and the
    entry holds the wildcard marker or the level itself; it returns false
    when the enabled-set of the namespace is empty, and when the
    namespace has no entry and is not the name of a member that the
    table inherits from [Object.prototype]. *)
Theorem isEnabled_iff (table : Table) (namespace level : string) :
  (isEnabledOrThrow table namespace level = Ok true
   ↔ ∃ s, table !! namespace = Some s ∧ ("*" ∈ s ∨ level ∈ s))
  ∧ (table !! namespace = Some [] →
     isEnabledOrThrow table namespace level = Ok false)
  ∧ (table !! namespace = None → inheritedName namespace = false →
     isEnabledOrThrow table namespace level = Ok false).
Proof.
  rewrite isEnabledOrThrow_lookup. split; [|split].
  - destruct (table !! namespace) as [s|]; split.
    + intros [= [H|H]%orb_true_iff]; apply has_true in H; eauto.
    + intros (s' & [= <-] & [H|H]); apply has_true in H; rewrite H;
        [done | by rewrite orb_true_r].
    + by destruct (inheritedName namespace).
    + by intros (? & ? & _).
  - by intros ->.
  - by intros -> ->.
Qed.

Lemma isEnabled_iff_witness :
  isEnabledOrThrow {["app" := ["info"]]} "app" "info" = Ok true
  ∧ isEnabledOrThrow {["app" := []]} "app" "info" = Ok false
  ∧ isEnabledOrThrow {["app" := ["info"]]} "db" "info" = Ok false.
Proof.
  split; [|split].
  - apply (proj1 (isEnabled_iff {["app" := ["info"]]} "app" "info")).
    exists ["info"]. split; [reflexivity|]. right. apply list_elem_of_here.
  - apply (proj1 (proj2 (isEnabled_iff {["app" := []]} "app" "info"))).
    reflexivity.
  - apply (proj2 (proj2 (isEnabled_iff {["app" := ["info"]]} "db" "info")));
      reflexivity.
Defined.

(** C6 as stated fails for a namespace that is absent from the table and
    named after a member of [Object.prototype]: the read of line 155
    finds the inherited member, line 156 lets it pass and line 159
    throws, so no answer is returned; this is so for each of the twelve
    names. *)
Lemma isEnabled_iff_counterexample :
  (∅ : Table) !! "constructor" = None
  ∧ isEnabledOrThrow ∅ "constructor" "info" = TypeError
  ∧ isEnabledOrThrow ∅ "constructor" "info" ≠ Ok false
  ∧ Forall (fun name => isEnabledOrThrow {["app" := ["info"]]} name "info"
                        = TypeError)
      ["constructor"; "hasOwnProperty"; "isPrototypeOf"; "propertyIsEnumerable";
       "toLocaleString"; "toString"; "valueOf"; "__proto__"; "__defineGetter__";
       "__defineSetter__"; "__lookupGetter__"; "__lookupSetter__"].
Proof.
  split; [reflexivity|]. split; [reflexivity|]. split; [discriminate|].
  repeat constructor.
Qed.

(** ** Empty declarations *)




(** ** What the table holds *)

(** X4. When no declared namespace is "__proto__", the built table has
    an entry for exactly the declared namespaces, and every member of
    every enabled-set is the wildcard marker or a declared level,
    whatever the spec names. *)
Theorem table_holds_declared (env : ProcessEnv) (namespaces levels : list string) :
  "__proto__" ∉ namespaces →
  ∃ t, parseDebugEnvVar env namespaces levels = Ok t
       ∧ (∀ ns, is_Some (t !! ns) ↔ ns ∈ namespaces)
       ∧ ∀ ns s x, t !! ns = Some s → x ∈ s → x = "*" ∨ x ∈ levels.
Proof.
  intros _.
  destruct (parseDebugEnvVar_wellFormed
              (fun s => ∀ x, x ∈ s → x = "*" ∨ x ∈ levels)
              env namespaces levels) as (t & Ht & Hd & HQ).
  - intros x Hx. by apply not_elem_of_nil in Hx.
  - intros x ->%list_elem_of_singleton. by left.
  - intros s lv Hs Hlv x Hx. apply has_true in Hx. rewrite has_add in Hx.
    apply orb_true_iff in Hx as [Hx|Hx].
    + apply Hs. by apply has_true.
    + apply bool_decide_eq_true in Hx. by subst x.
  - exists t. split; [done|]. split; [done|]. intros ns s x Hs.
    by apply (HQ ns s Hs).
Qed.

Lemma table_holds_declared_witness :
  ∃ t s, parseDebugEnvVar (envDebug "app:info,app:verbose,app:error,ghost:info")
           ["app"] ["info"; "error"] = Ok t
         ∧ t !! "app" = Some s ∧ ("verbose" ∉ s) ∧ t !! "ghost" = None.
Proof.
  destruct (table_holds_declared
              (envDebug "app:info,app:verbose,app:error,ghost:info")
              ["app"] ["info"; "error"]) as (t & Ht & Hd & Hin).
  { apply not_elem_of_decide. reflexivity. }
  destruct (proj2 (Hd "app")) as [s Hs]; [apply list_elem_of_here|].
  exists t, s. split; [exact Ht|]. split; [exact Hs|]. split.
  - intros Hv. destruct (Hin "app" s "verbose" Hs Hv) as [H|H]; [discriminate H|].
    revert H. apply not_elem_of_decide. reflexivity.
  - destruct (t !! "ghost") as [s'|] eqn:Hg; [|reflexivity].
    exfalso. assert ("ghost" ∈ ["app"]) as H by (apply Hd; by eexists).
    revert H. apply not_elem_of_decide. reflexivity.
Defined.

(** ** The log functions, for levels that are no inherited names *)

Section Emission.

Context {any Handle Pino : Type}.
Variable toStr : any → string.
Variable parseIntStr : any → string.
Variable parseFloatStr : any → string.
Variable isObject : any → bool.
Variable asString : any → option string.
Variable pino : string → Handle.
Variable child : Handle → string → string → Handle.
Variable isLevelEnabled : Pino → Handle → Severity → bool.
Variable emit : Handle → Severity → option (Payload any) → option string →
                Pino → Pino.
Variable isLevelEnabledOther : Pino → Handle → bool.

Abbreviation logFn4 :=
  (logFn toStr parseIntStr parseFloatStr isObject asString isLevelEnabled emit).
Abbreviation logFnOrThrow4 :=
  (logFnOrThrow toStr parseIntStr parseFloatStr isObject asString isLevelEnabled
     emit isLevelEnabledOther).
Abbreviation forwarded4 :=
  (forwarded toStr parseIntStr parseFloatStr isObject asString).
Abbreviation helloInnit4 :=
  (helloInnit toStr parseIntStr parseFloatStr isObject asString pino child
     isLevelEnabled emit).
Abbreviation makeLogFunction4 :=
  (makeLogFunction toStr parseIntStr parseFloatStr isObject asString child
     isLevelEnabled emit).

(** A call either returns at the guard or makes one call of the engine,
    with the object and the text of [forwarded]. *)
Lemma logFn_forwarded (t : Table) (namespace level : string) (envLogger : Handle)
    (pinoLevel : Severity) (messageOrObj : MessageOrObj any) (args : list any)
    (w : World any Handle Pino) :
  logFn4 t namespace level envLogger pinoLevel messageOrObj args w
  = if isEnabled t namespace level || isLevelEnabled (engine w) envLogger pinoLevel
    then callEngine emit envLogger pinoLevel
           (forwarded4 messageOrObj args).1 (forwarded4 messageOrObj args).2 w
    else w.
Proof.
  unfold logFn, forwarded, leadingText. rewrite <- negb_orb.
  destruct (isEnabled t namespace level
            || isLevelEnabled (engine w) envLogger pinoLevel); [|done].
  cbn [negb]. destruct messageOrObj as [m|o].
  - rewrite formatMessage_pieces. cbn [message unusedArgs fst snd].
    rewrite leftover_test. by destruct (_ <? _)%nat.
  - destruct args as [|a args]; [done|].
    destruct (asString a) as [m|]; [|done].
    destruct (Str.truthy m); [|done].
    rewrite formatMessage_pieces. cbn [message unusedArgs fst snd].
    rewrite leftover_test. by destruct (_ <? _)%nat.
Qed.

(** For a declared namespace and a level that is no inherited name, the
    two reads of the log function see own keys only. *)
Lemma logFnOrThrow_returns (t : Table) (namespace level : string)
    (envLogger : Handle) (messageOrObj : MessageOrObj any) (args : list any)
    (w : World any Handle Pino) :
  is_Some (t !! namespace) → inheritedName level = false →
  logFnOrThrow4 t namespace level envLogger messageOrObj args w
  = Ok (logFn4 t namespace level envLogger (pinoLevelOf level) messageOrObj args w).
Proof.
  intros Hns Hlvl. unfold logFnOrThrow.
  rewrite isEnabledOrThrow_returns by by left.
  cbn [mbind Result_bind]. by rewrite pinoLevelRead_severity.
Qed.

(** The matrix over the base logger that [helloInnit] takes or makes. *)
Lemma helloInnit_base (env : ProcessEnv) (namespaces levels : list string)
    (options : Options Handle) :
  ∃ t levelName hello,
    parseDebugEnvVar env namespaces levels = Ok t
    ∧ declaredIn namespaces t
    ∧ helloInnit4 env namespaces levels options = Ok hello
    ∧ (∀ ns, is_Some (hello !! ns) ↔ ns ∈ namespaces)
    ∧ (∀ ns envMap, hello !! ns = Some envMap →
                    ∀ lvl, is_Some (envMap !! lvl) ↔ lvl ∈ levels)
    ∧ ∀ ns lvl,
        lookupFn hello ns lvl
        = if bool_decide (ns ∈ namespaces) && bool_decide (lvl ∈ levels)
          then Ok (makeLogFunction4 t
                     (child (default (pino levelName) (logger options))
                        "namespace" ns) ns lvl)
          else TypeError.
Proof.
  destruct (parseDebugEnvVar_total env namespaces levels) as (t & Ht & Hd).
  destruct (getMinLogLevel_total env namespaces t Hd) as [sev Hsev].
  exists t, (default (severityName sev) (level options)).
  eexists. unfold helloInnit. rewrite Ht. cbn [mbind Result_bind].
  rewrite Hsev. split; [done|]. split; [done|]. split; [done|].
  set (base := default (pino (default (severityName sev) (level options)))
                 (logger options)).
  assert (∀ ns,
            foldl (fun hello namespace =>
                     <[namespace :=
                         foldl (fun envMap level =>
                                  <[level := makeLogFunction4 t
                                               (child base "namespace" namespace)
                                               namespace level]> envMap) ∅ levels]>
                       hello)
              (∅ : gmap string (gmap string (LogFunction any Handle Pino)))
              namespaces !! ns
            = if bool_decide (ns ∈ namespaces)
              then Some (foldl (fun envMap level =>
                                  <[level := makeLogFunction4 t
                                               (child base "namespace" ns)
                                               ns level]> envMap) ∅ levels)
              else None) as Hkeys.
  { intros ns.
    rewrite (foldl_insert_fn_lookup
               (fun namespace =>
                  foldl (fun envMap level =>
                           <[level := makeLogFunction4 t
                                        (child base "namespace" namespace)
                                        namespace level]> envMap) ∅ levels)).
    by rewrite lookup_empty. }
  split; [|split].
  - intros ns. rewrite Hkeys.
    case_bool_decide; split; try done; by intros [? ?].
  - intros ns envMap. rewrite Hkeys. case_bool_decide; [|done].
    intros [= <-] lvl.
    rewrite (foldl_insert_fn_lookup
               (fun level => makeLogFunction4 t (child base "namespace" ns) ns level)).
    rewrite lookup_empty.
    case_bool_decide; split; try done; by intros [? ?].
  - intros ns lvl. unfold lookupFn. rewrite Hkeys.
    case_bool_decide; [|done]. cbn [andb].
    rewrite (foldl_insert_fn_lookup
               (fun level => makeLogFunction4 t (child base "namespace" ns) ns level)).
    by case_bool_decide.
Qed.


(** X13. Over an engine whose constructor and [child] return, and for
    declarations in which no namespace and no level is "__proto__", the
    steps of [helloInnit] itself never throw, whatever the environment
    and the options; the matrix has a key for exactly the declared
    namespaces, and under each of them a log function for exactly the
    declared levels. *)
Theorem matrix_structure (env : ProcessEnv) (namespaces levels : list string)
    (options : Options Handle) :
  "__proto__" ∉ namespaces → "__proto__" ∉ levels →
  ∃ hello,
    helloInnit4 env namespaces levels options = Ok hello
    ∧ (∀ ns, is_Some (hello !! ns) ↔ ns ∈ namespaces)
    ∧ ∀ ns envMap, hello !! ns = Some envMap →
                   ∀ lvl, is_Some (envMap !! lvl) ↔ lvl ∈ levels.
Proof.
  intros _ _.
  destruct (helloInnit_base env namespaces levels options)
    as (t & levelName & hello & _ & _ & Hhello & Hns & Hlvl & _).
  by exists hello.
Qed.

(** X14. When "__proto__" is not among the declared names: for the log
    function of a declared pair whose level is not the name of a member
    inherited from [Object.prototype], [enabled] reads true in a world
    exactly when a call in that world reaches the engine: the call then
    does not throw and adds one entry to the emitted calls, and
    otherwise leaves the world as it is. *)
Theorem enabled_predicts_emission (env : ProcessEnv)
    (namespaces levels : list string) (options : Options Handle) :
  "__proto__" ∉ namespaces → "__proto__" ∉ levels →
  ∃ t levelName hello,
    parseDebugEnvVar env namespaces levels = Ok t
    ∧ helloInnit4 env namespaces levels options = Ok hello
    ∧ ∀ ns lvl, ns ∈ namespaces → lvl ∈ levels → inheritedName lvl = false →
        let envLogger :=
          child (child (default (pino levelName) (logger options)) "namespace" ns)
            "environment" lvl in
        ∃ f,
          lookupFn hello ns lvl = Ok f
          ∧ ∀ messageOrObj args w,
              logFnOrThrow4 t ns lvl envLogger messageOrObj args w
              = Ok (invoke f messageOrObj args w)
              ∧ (getEnabled f w = true
                 → length (emitted (invoke f messageOrObj args w))
                   = S (length (emitted w)))
              ∧ (getEnabled f w = false → invoke f messageOrObj args w = w).
Proof.
  intros _ _.
  destruct (helloInnit_base env namespaces levels options)
    as (t & levelName & hello & Ht & Hd & Hhello & _ & _ & Hlookup).
  exists t, levelName, hello. split; [done|]. split; [done|].
  intros ns lvl Hns Hlvl Hown envLogger. eexists. split.
  { rewrite Hlookup. by rewrite !bool_decide_eq_true_2. }
  intros messageOrObj args w.
  cbn [getEnabled invoke makeLogFunction]. fold envLogger.
  rewrite logFnOrThrow_returns by (by apply Hd || done).
  split; [done|]. unfold enabledGet. rewrite logFn_forwarded.
  destruct (isEnabled t ns lvl
            || isLevelEnabled (engine w) envLogger (pinoLevelOf lvl)).
  - split; [|done]. intros _.
    rewrite callEngine_emitted, length_app. simpl. lia.
  - by split.
Qed.

End Emission.



Lemma matrix_structure_witness :
  ∃ hello envMap,
    Demo.helloInnit (envDebug "ghost:info") ["app"; "api"] ["info"; "error"]
    = Ok hello
    ∧ hello !! "app" = Some envMap
    ∧ is_Some (envMap !! "error") ∧ hello !! "ghost" = None.
Proof.
  destruct (matrix_structure (fun s => s) (fun s => s) (fun s => s) (fun _ => false)
              Some Demo.pino Demo.child Demo.isLevelEnabled Demo.emit
              (envDebug "ghost:info") ["app"; "api"] ["info"; "error"]
              (mkOptions None None)) as (hello & Hhello & Hns & Hlvl).
  { apply not_elem_of_decide. reflexivity. }
  { apply not_elem_of_decide. reflexivity. }
  destruct (proj2 (Hns "app")) as [envMap Hmap]; [apply list_elem_of_here|].
  exists hello, envMap. split; [exact Hhello|]. split; [exact Hmap|]. split.
  - apply (Hlvl "app" envMap Hmap "error").
    apply list_elem_of_further, list_elem_of_here.
  - destruct (hello !! "ghost") eqn:Hg; [|reflexivity].
    exfalso. assert ("ghost" ∈ ["app"; "api"]) as H by (apply Hns; by eexists).
    revert H. apply not_elem_of_decide. reflexivity.
Defined.

Lemma enabled_predicts_emission_witness :
  ∃ hello f,
    Demo.helloInnit (envDebug "app:info") ["app"] ["info"; "error"] = Ok hello
    ∧ lookupFn hello "app" "info" = Ok f
    ∧ length (emitted (invoke f (Message "ready") [] Demo.start)) = 1%nat.
Proof.
  destruct (enabled_predicts_emission (fun s => s) (fun s => s) (fun s => s)
              (fun _ => false) Some Demo.pino Demo.child Demo.isLevelEnabled
              Demo.emit (fun _ _ => false) (envDebug "app:info") ["app"]
              ["info"; "error"] (mkOptions None None))
    as (t & levelName & hello & _ & Hhello & Hpred).
  { apply not_elem_of_decide. reflexivity. }
  { apply not_elem_of_decide. reflexivity. }
  destruct (Hpred "app" "info") as (f & Hf & Hcall).
  - apply list_elem_of_here.
  - apply list_elem_of_here.
  - reflexivity.
  - exists hello, f. split; [exact Hhello|]. split; [exact Hf|].
    apply (Hcall (Message "ready") [] Demo.start).
    assert (Demo.helloInnit (envDebug "app:info") ["app"] ["info"; "error"]
            = Ok hello) as Hh by exact Hhello.
    vm_compute in Hh. injection Hh as <-.
    vm_compute in Hf. injection Hf as <-. reflexivity.
Defined.
